(** * Verification of [analyze_video.py]: the H.264 elementary-stream analyzer

    The development embeds the analysis core of the script: the Annex-B NAL
    scanner ([parse_nal_units]), the slice classifier ([parse_slice_header],
    [analyze_reference_frames]), the GOP segmenter ([analyze_gop_structure])
    and the numeric summaries (bitrate, reference ratio, frame-size
    statistics), then the reports printed from them, the parsers of the
    header trace and a whole run of [analyze_video].  Byte strings are lists of [byte], Python dictionaries read
    from JSON are finite maps with string keys, dictionaries built with a
    fixed set of keys are records, and Python floats are IEEE binary64
    numbers ([PrimFloat]). *)

From Stdlib Require Import ZArith Floats Ascii.
From Stdlib.Strings Require Import Byte.
From stdpp Require Import gmap strings list sorting.

#[local] Open Scope Z_scope.
#[local] Open Scope nat_scope.

(** * The program *)

(** ** Byte strings *)

#[global] Instance byte_eq_dec : EqDecision byte := Byte.byte_eq_dec.

(** The integer value of a byte, as Python's [bytes.__getitem__] gives it. *)
Definition byte_val (b : byte) : Z := Z.of_N (Byte.to_N b).

(** [b'\x00\x00\x00\x01'] and [b'\x00\x00\x01']. *)
Definition start_code4 : list byte := [x00; x00; x00; x01].
Definition start_code3 : list byte := [x00; x00; x01].

(** ** [io.BytesIO]: an immutable buffer with a read position *)

Record BytesIO := mkBytesIO { getvalue : list byte; tell : nat }.

(** [data.read(n)]: at most [n] bytes from the current position; the
    position advances by the number of bytes actually read. *)
Definition read (n : nat) (data : BytesIO) : list byte * BytesIO :=
  let chunk := take n (drop (tell data) (getvalue data)) in
  (chunk, mkBytesIO (getvalue data) (tell data + length chunk)).

(** [data.seek(pos)]. *)
Definition seek (pos : nat) (data : BytesIO) : BytesIO :=
  mkBytesIO (getvalue data) pos.

(** [data.seek(-k, 1)]: relative seek backwards, clamped at 0. *)
Definition seek_back (k : nat) (data : BytesIO) : BytesIO :=
  mkBytesIO (getvalue data) (tell data - k).

(** ** NAL scanner *)

(** The dictionary appended by [parse_nal_units], with keys ['type'],
    ['data'], ['size'] and ['offset']. *)
Record NalUnit := mkNalUnit {
  nal_type : Z;
  nal_data : list byte;
  nal_size : nat;
  nal_offset : nat
}.

(** The test of the inner loop: [chunk[:4] == b'\x00\x00\x00\x01' or
    chunk[:3] == b'\x00\x00\x01']. *)
Definition is_start_code (chunk : list byte) : bool :=
  bool_decide (take 4 chunk = start_code4) || bool_decide (take 3 chunk = start_code3).

(** The inner [while True] of [parse_nal_units]: the position of the next
    start code, or the length of the stream.  [fuel] bounds the number of
    iterations; [None] means the bound was reached. *)
Fixpoint find_next_start (fuel : nat) (h264_data : list byte) (data : BytesIO)
  : option nat :=
  match fuel with
  | O => None
  | S fuel =>
      let pos := tell data in
      let '(chunk, data) := read 4 data in
      if length chunk <? 3 then Some (length h264_data)
      else if is_start_code chunk then Some pos
      else find_next_start fuel h264_data (seek (pos + 1) data)
  end.

(** The outer [while True] of [parse_nal_units]. *)
Fixpoint scan_nal_units (fuel : nat) (h264_data : list byte) (data : BytesIO)
    (nal_units : list NalUnit) : option (list NalUnit) :=
  match fuel with
  | O => None
  | S fuel =>
      let start_pos := tell data in
      let '(chunk, data) := read 4 data in
      if length chunk <? 4 then Some nal_units
      else
        let found :=
          if bool_decide (chunk = start_code4) then Some (data, 4)
          else if bool_decide (take 3 chunk = start_code3)
               then Some (seek_back 1 data, 3)
               else None in
        match found with
        | None => scan_nal_units fuel h264_data (seek (start_pos + 1) data) nal_units
        | Some (data, start_code_len) =>
            let nal_start := tell data in
            match find_next_start (S (length h264_data)) h264_data data with
            | None => None
            | Some next_start =>
                let data := seek nal_start data in
                let nal_size := next_start - nal_start in
                let '(nal_data, data) := read nal_size data in
                let nal_units :=
                  match nal_data with
                  | [] => nal_units
                  | b :: _ =>
                      nal_units ++
                        [ {| nal_type := Z.land (byte_val b) 0x1F;
                             nal_data := nal_data;
                             nal_size := nal_size;
                             nal_offset := nal_start |} ]
                  end in
                scan_nal_units fuel h264_data (seek next_start data) nal_units
            end
        end
  end.

(** [parse_nal_units(h264_data)].  Every iteration of either loop moves the
    read position forward, so [S (length h264_data)] iterations suffice
    (lemma [parse_nal_units_total] below). *)
Definition parse_nal_units (h264_data : list byte) : option (list NalUnit) :=
  scan_nal_units (S (length h264_data)) h264_data (mkBytesIO h264_data 0) [].

(** ** NAL classifier *)

(** The dictionary [slice_info] built by [parse_slice_header]. *)
Record SliceInfo := mkSliceInfo {
  si_nal_type : Z;
  si_slice_type : option string;
  si_frame_num : option Z;
  si_idr_pic_id : option Z;
  si_is_reference : bool
}.

(** [parse_slice_header(nal_data)]; Python's [None] is [None]. *)
Definition parse_slice_header (nal_data : list byte) : option SliceInfo :=
  if length nal_data <? 2 then None
  else
    match nal_data with
    | [] => None
    | b :: _ =>
        let nal_type := Z.land (byte_val b) 0x1F in
        if negb (bool_decide (nal_type ∈ [1; 2; 3; 4; 5]%Z)) then None
        else
          let slice_info :=
            {| si_nal_type := nal_type;
               si_slice_type := None;
               si_frame_num := None;
               si_idr_pic_id := if bool_decide (nal_type ≠ 5%Z) then None else Some 0%Z;
               si_is_reference := bool_decide (nal_type ∈ [1; 2; 5]%Z) |} in
          let slice_info :=
            if bool_decide (nal_type = 5%Z) then
              {| si_nal_type := si_nal_type slice_info;
                 si_slice_type := Some "I"%string;
                 si_frame_num := si_frame_num slice_info;
                 si_idr_pic_id := si_idr_pic_id slice_info;
                 si_is_reference := si_is_reference slice_info |}
            else if bool_decide (nal_type = 1%Z) then
              {| si_nal_type := si_nal_type slice_info;
                 si_slice_type := Some "P/B"%string;
                 si_frame_num := si_frame_num slice_info;
                 si_idr_pic_id := si_idr_pic_id slice_info;
                 si_is_reference := si_is_reference slice_info |}
            else slice_info in
          Some slice_info
    end.

(** The dictionaries collected in [frame_info] by [analyze_reference_frames]. *)
Record FrameInfo := mkFrameInfo {
  fi_nal_type : Z;
  fi_slice_type : option string;
  fi_is_reference : bool;
  fi_size : nat
}.

(** The dictionary returned by [analyze_reference_frames]. *)
Record RefData := mkRefData {
  has_sps : bool;
  has_pps : bool;
  frames : list FrameInfo
}.

(** The loop of [analyze_reference_frames], as a fold over the units. *)
Fixpoint reference_loop (nal_units : list NalUnit) (acc : RefData) : RefData :=
  match nal_units with
  | [] => acc
  | nal :: rest =>
      let nal_type := nal_type nal in
      let acc :=
        if bool_decide (nal_type = 7%Z) then
          mkRefData true (has_pps acc) (frames acc)
        else if bool_decide (nal_type = 8%Z) then
          mkRefData (has_sps acc) true (frames acc)
        else if bool_decide (nal_type ∈ [1; 2; 3; 4; 5]%Z) then
          match parse_slice_header (nal_data nal) with
          | Some slice_info =>
              mkRefData (has_sps acc) (has_pps acc)
                (frames acc ++
                   [ {| fi_nal_type := nal_type;
                        fi_slice_type := si_slice_type slice_info;
                        fi_is_reference := si_is_reference slice_info;
                        fi_size := nal_size nal |} ])
          | None => acc
          end
        else acc in
      reference_loop rest acc
  end.

Definition analyze_reference_frames (nal_units : list NalUnit) : RefData :=
  reference_loop nal_units (mkRefData false false []).

(** The IDR test used throughout the reference analysis:
    [f['nal_type'] == 5]. *)
Definition is_idr (nal_type : Z) : bool := bool_decide (nal_type = 5%Z).


(** ** GOP segmenter *)

(** Scalar values of the JSON objects printed by ffprobe. *)
Inductive JsonValue := JStr (s : string) | JInt (z : Z).

#[global] Instance JsonValue_eq_dec : EqDecision JsonValue.
Proof. solve_decision. Defined.

(** The dictionaries stored in a GOP, with keys ['index'], ['type'], ['pts']. *)
Record GopFrame := mkGopFrame {
  gf_index : nat;
  gf_type : JsonValue;
  gf_pts : JsonValue
}.

(** The entry built for frame number [i]; [frame.get(key, default)] is a
    lookup with a default. *)
Definition gop_frame (i : nat) (frame : gmap string JsonValue) : GopFrame :=
  {| gf_index := i;
     gf_type := default (JStr "Unknown") (frame !! "pict_type"%string);
     gf_pts := default (JStr "N/A") (frame !! "pts"%string) |}.

(** The [for i, frame in enumerate(frames)] loop of [analyze_gop_structure],
    threading [gops] and [current_gop]; [i] is the index of the head of
    [frames]. *)
Fixpoint gop_loop (frames : list (gmap string JsonValue)) (i : nat)
    (gops : list (list GopFrame)) (current_gop : list GopFrame)
  : list (list GopFrame) * list GopFrame :=
  match frames with
  | [] => (gops, current_gop)
  | frame :: frames =>
      let frame_type := default (JStr "Unknown") (frame !! "pict_type"%string) in
      if bool_decide (frame_type = JStr "I") then
        let gops :=
          match current_gop with
          | [] => gops
          | _ :: _ => gops ++ [current_gop]
          end in
        gop_loop frames (S i) gops [gop_frame i frame]
      else
        gop_loop frames (S i) gops (current_gop ++ [gop_frame i frame])
  end.

Definition analyze_gop_structure (frames : list (gmap string JsonValue))
  : list (list GopFrame) :=
  let '(gops, current_gop) := gop_loop frames 0 [] [] in
  match current_gop with
  | [] => gops
  | _ :: _ => gops ++ [current_gop]
  end.

(** ** Python numbers *)

(** A Python number: an [int] or a [float]. *)
Inductive PyNum := PyInt (z : Z) | PyFloat (f : float).

(** The exceptions the arithmetic of the script can raise. *)
Inductive PyError := ZeroDivisionError | ValueError.

Inductive exn (A : Type) := Ok (a : A) | Raise (e : PyError).
Arguments Ok {A} a.
Arguments Raise {A} e.

#[global] Instance exn_ret : MRet exn := λ A a, Ok a.
#[global] Instance exn_bind : MBind exn := λ A B f m,
  match m with
  | Ok a => f a
  | Raise e => Raise e
  end.
#[global] Instance exn_fmap : FMap exn := λ A B f m,
  match m with
  | Ok a => Ok (f a)
  | Raise e => Raise e
  end.

(** [float(z)] for an [int] operand of a float operation.  The conversion is
    exact for [|z| < 2^53], the range in which the statements below are
    made. *)
Definition float_of_int (z : Z) : float :=
  if (z <? 0)%Z then PrimFloat.opp (PrimFloat.of_uint63 (Uint63.of_Z (- z)))
  else PrimFloat.of_uint63 (Uint63.of_Z z).

(** Integers that binary64 represents exactly. *)
Definition exact_int (z : Z) : Prop := (Z.abs z < 2 ^ 53)%Z.

(** [a / b] on two [int]s: true division.  For exactly representable
    operands the correctly rounded quotient is the IEEE quotient of the
    converted operands. *)
Definition int_truediv (a b : Z) : exn float :=
  if (b =? 0)%Z then Raise ZeroDivisionError
  else Ok (PrimFloat.div (float_of_int a) (float_of_int b)).

(** [a / d] with an [int] numerator and a [float] denominator. *)
Definition int_div_float (a : Z) (d : float) : exn float :=
  if PrimFloat.eqb d 0%float then Raise ZeroDivisionError
  else Ok (PrimFloat.div (float_of_int a) d).

(** [d / b] with a [float] numerator and an [int] denominator. *)
Definition float_div_int (d : float) (b : Z) : exn float :=
  if (b =? 0)%Z then Raise ZeroDivisionError
  else Ok (PrimFloat.div d (float_of_int b)).

(** [sum(...)] over [int]s. *)
Definition py_sum (l : list Z) : Z := foldl Z.add 0%Z l.

(** [max(...)] and [min(...)] over [int]s; an empty argument raises
    [ValueError]. *)
Definition py_max (l : list Z) : exn Z :=
  match l with
  | [] => Raise ValueError
  | x :: xs => Ok (foldl Z.max x xs)
  end.
Definition py_min (l : list Z) : exn Z :=
  match l with
  | [] => Raise ValueError
  | x :: xs => Ok (foldl Z.min x xs)
  end.

(** [a / b] on two [float]s. *)
Definition float_truediv (a b : float) : exn float :=
  if PrimFloat.eqb b 0%float then Raise ZeroDivisionError
  else Ok (PrimFloat.div a b).

(** [len(...)] as a Python [int]. *)
Definition len {A} (l : list A) : Z := Z.of_nat (length l).

(** ** Statistics *)

(** The values [print_bitrate_analysis] computes and prints (the listing of
    the five largest frames and the mean frame size are left out). *)
Record BitrateReport := mkBitrateReport {
  br_total_frames : Z;
  br_duration : float;
  br_avg_bitrate : PyNum;
  br_max_frame_bitrate : Z;
  br_min_frame_bitrate : Z
}.

(** [print_bitrate_analysis(frame_sizes, framerate)]: [Ok None] is the early
    return after "No frame data available". *)
Definition print_bitrate_analysis (frame_sizes : list Z) (framerate : Z)
  : exn (option BitrateReport) :=
  match frame_sizes with
  | [] => Ok None
  | _ :: _ =>
      let frame_bits := (λ size, size * 8)%Z <$> frame_sizes in
      let total_bits := py_sum frame_bits in
      duration ← int_truediv (len frame_sizes) framerate;
      avg_bitrate ←
        (if PrimFloat.ltb 0%float duration
         then PyFloat <$> int_div_float total_bits duration
         else Ok (PyInt 0));
      max_frame_bits ← py_max frame_bits;
      min_frame_bits ← py_min frame_bits;
      Ok (Some {| br_total_frames := len frame_sizes;
                  br_duration := duration;
                  br_avg_bitrate := avg_bitrate;
                  br_max_frame_bitrate := max_frame_bits * framerate;
                  br_min_frame_bitrate := min_frame_bits * framerate |})
  end.

(** The values [print_reference_analysis] computes and prints (the size
    statistics per class are left out). *)
Record ReferenceReport := mkReferenceReport {
  rr_total : Z;
  rr_idr_count : Z;
  rr_non_idr_ref_count : Z;
  rr_non_ref_count : Z;
  rr_ref_ratio : PyNum
}.

(** [sum(1 for f in frames if p(f))]. *)
Definition count_if {A} (p : A → bool) (l : list A) : Z :=
  py_sum ((λ _, 1%Z) <$> filter (λ f, p f = true) l).

(** [print_reference_analysis(ref_data, filename)]: [Ok None] is the early
    return after "No frame data found". *)
Definition print_reference_analysis (ref_data : RefData)
  : exn (option ReferenceReport) :=
  let frames := frames ref_data in
  match frames with
  | [] => Ok None
  | _ :: _ =>
      let idr_count := count_if (λ f, bool_decide (fi_nal_type f = 5%Z)) frames in
      let non_idr_ref_count :=
        count_if (λ f, bool_decide (fi_nal_type f ∈ [1; 2]%Z) && fi_is_reference f)
                 frames in
      let non_ref_count := count_if (λ f, negb (fi_is_reference f)) frames in
      let ref_frames := (idr_count + non_idr_ref_count)%Z in
      ref_ratio ←
        match frames with
        | [] => Ok (PyInt 0)
        | _ :: _ =>
            q ← int_truediv ref_frames (len frames);
            Ok (PyFloat (PrimFloat.mul q (float_of_int 100)))
        end;
      Ok (Some {| rr_total := len frames;
                  rr_idr_count := idr_count;
                  rr_non_idr_ref_count := non_idr_ref_count;
                  rr_non_ref_count := non_ref_count;
                  rr_ref_ratio := ref_ratio |})
  end.

(** The dictionary returned by [analyze_video]. *)
Record Summary := mkSummary {
  avg_bitrate : PyNum;
  avg_gop_size : PyNum;
  peak_frame_mbps : PyNum;
  i_frame_count : Z;
  ref_ratio : PyNum
}.

(** The summary at the end of [analyze_video], as a function of the values
    the function has obtained by then: [frame_sizes], [gops] and the
    ['frames'] entry of [ref_data].  [Ok None] is [return None]. *)
Definition analyze_video (frame_sizes : list Z) (gops : list (list GopFrame))
    (ref_frames : list FrameInfo) (framerate : Z) : exn (option Summary) :=
  match frame_sizes, gops with
  | _ :: _, _ :: _ =>
      duration ← int_truediv (len frame_sizes) framerate;
      avg_bitrate ←
        (if PrimFloat.ltb 0%float duration
         then PyFloat <$> int_div_float (py_sum frame_sizes * 8) duration
         else Ok (PyInt 0));
      avg_gop_size ←
        match gops with
        | [] => Ok (PyInt 0)
        | _ :: _ => PyFloat <$> int_truediv (py_sum (len <$> gops)) (len gops)
        end;
      peak_frame_mbps ←
        match frame_sizes with
        | [] => Ok (PyInt 0)
        | _ :: _ =>
            max_size ← py_max frame_sizes;
            PyFloat <$> int_truediv (max_size * 8 * framerate) 1000000
        end;
      let i_frame_count :=
        count_if (λ frame, bool_decide (gf_type frame = JStr "I")) (concat gops) in
      ref_ratio ←
        match ref_frames with
        | [] => Ok (PyInt 0)
        | _ :: _ =>
            let total_ref := count_if fi_is_reference ref_frames in
            q ← int_truediv total_ref (len ref_frames);
            Ok (PyFloat (PrimFloat.mul q (float_of_int 100)))
        end;
      Ok (Some {| avg_bitrate := avg_bitrate;
                  avg_gop_size := avg_gop_size;
                  peak_frame_mbps := peak_frame_mbps;
                  i_frame_count := i_frame_count;
                  ref_ratio := ref_ratio |})
  | _, _ => Ok None
  end.

(** ** Frame-size statistics of the detailed mode *)

Section FrameSizeStatistics.

(** Two operations of the Python runtime are kept abstract, because their
    last bits depend on the C library and on the interpreter version:
    [x ** y] on floats, and [sum] over floats. *)
Variable float_pow : float → float → float.
Variable float_sum : list float → float.

(** [(sum((x - avg)**2 for x in sizes) / len(sizes))**0.5]. *)
Definition std_dev (sizes : list Z) (avg : float) : exn float :=
  let squares :=
    (λ x, float_pow (PrimFloat.sub (float_of_int x) avg) (float_of_int 2))
      <$> sizes in
  variance ← float_div_int (float_sum squares) (len sizes);
  Ok (float_pow variance 0.5%float).

(** The three entries [*_frame_avg], [*_frame_std], [*_frame_count] that
    [analyze_quantization_and_motion] stores for one picture type. *)
Record FrameStats := mkFrameStats {
  frame_avg : float;
  frame_std : float;
  frame_count : Z
}.

(** The body of [if i_sizes:] (respectively [if p_sizes:]). *)
Definition frame_stats (sizes : list Z) : exn (option FrameStats) :=
  match sizes with
  | [] => Ok None
  | _ :: _ =>
      avg ← int_truediv (py_sum sizes) (len sizes);
      std ← std_dev sizes avg;
      Ok (Some {| frame_avg := avg; frame_std := std; frame_count := len sizes |})
  end.

(** The dictionary [stats]; an absent key is [None]. *)
Record Stats := mkStats {
  i_frame : option FrameStats;
  p_frame : option FrameStats;
  size_cv : option PyNum
}.

(** The statistics of [analyze_quantization_and_motion], from the packet
    sizes of the I frames and of the P frames. *)
Definition analyze_quantization_and_motion (i_sizes p_sizes : list Z) : exn Stats :=
  i_stats ← frame_stats i_sizes;
  p_stats ← frame_stats p_sizes;
  let all_sizes := i_sizes ++ p_sizes in
  cv ←
    match all_sizes with
    | [] => Ok None
    | _ :: _ =>
        avg_size ← int_truediv (py_sum all_sizes) (len all_sizes);
        std_size ← std_dev all_sizes avg_size;
        if PrimFloat.ltb 0%float avg_size
        then (λ q, Some (PyFloat q)) <$> float_truediv std_size avg_size
        else Ok (Some (PyInt 0))
    end;
  Ok {| i_frame := i_stats; p_frame := p_stats; size_cv := cv |}.

(** *** The two textbook formulas, written from their definitions

    These do not come from the script; the script's [std_dev] is compared
    with them.  [std_with_divisor d sizes] is [sqrt(S / d)], where [S] is
    the sum of the squared deviations of [sizes] from their mean; the
    square and the square root are [** 2] and [** 0.5]. *)
Definition mean (sizes : list Z) : float :=
  PrimFloat.div (float_of_int (py_sum sizes)) (float_of_int (len sizes)).

Definition std_with_divisor (d : Z) (sizes : list Z) : float :=
  let m := mean sizes in
  let squares :=
    (λ x, float_pow (PrimFloat.sub (float_of_int x) m) (float_of_int 2))
      <$> sizes in
  float_pow (PrimFloat.div (float_sum squares) (float_of_int d)) 0.5%float.

(** Population formula: divisor [n]. *)
Definition population_std (sizes : list Z) : float :=
  std_with_divisor (len sizes) sizes.

(** Sample (Bessel-corrected) formula: divisor [n - 1]. *)
Definition sample_std (sizes : list Z) : float :=
  std_with_divisor (len sizes - 1) sizes.

End FrameSizeStatistics.

(** An IEEE reading of the two abstract operations: [**] at the two
    exponents the script uses, and [sum] as left-to-right addition from 0. *)
Definition ieee_pow (x y : float) : float :=
  if PrimFloat.eqb y 0.5%float then PrimFloat.sqrt x
  else if PrimFloat.eqb y 2%float then PrimFloat.mul x x
  else PrimFloat.nan.

Definition ieee_sum (l : list float) : float := foldl PrimFloat.add 0%float l.

(** * Notions used in the statements *)

(** ** Start codes in a byte string *)

(** Distance from the head of [l] to the first position where a start code
    begins; [length l] when [l] holds no start code. *)
Fixpoint next_start_code (l : list byte) : nat :=
  match l with
  | [] => 0
  | _ :: l' => if is_start_code l then 0 else S (next_start_code l')
  end.

(** ** What the scanner emits *)

(** [framed l payloads]: the byte string [l] is a sequence of start codes,
    each followed by the next of the [payloads] or by nothing, and the
    payloads occur in the order of the list.  Reading [l] from left to right
    while dropping the start codes leaves exactly the payloads. *)
Inductive framed : list byte → list (list byte) → Prop :=
  | framed_end : framed [] []
  | framed_code code rest payloads :
      code = start_code3 ∨ code = start_code4 →
      framed rest payloads →
      framed (code ++ rest) payloads
  | framed_payload code payload rest payloads :
      code = start_code3 ∨ code = start_code4 →
      payload ≠ [] →
      framed rest payloads →
      framed (code ++ payload ++ rest) (payload :: payloads).

(** The position of one emitted unit inside the scanned buffer. *)
Record nal_span (buf : list byte) (n : NalUnit) : Prop := mk_nal_span {
  (** a start code ends where the payload begins *)
  span_code : ∃ code, (code = start_code3 ∨ code = start_code4) ∧
                length code ≤ nal_offset n ∧
                take (length code) (drop (nal_offset n - length code) buf) = code;
  (** the payload is the slice [offset, offset + size) of the buffer *)
  span_data : nal_data n = take (nal_size n) (drop (nal_offset n) buf);
  (** which ends where the next start code begins, or with the buffer *)
  span_end : nal_size n = next_start_code (drop (nal_offset n) buf);
  (** and holds at least the header byte, whose low five bits are the type *)
  span_size : 1 ≤ nal_size n ∧ length (nal_data n) = nal_size n;
  span_type : ∃ b, head (nal_data n) = Some b ∧ nal_type n = Z.land (byte_val b) 0x1F
}.


(** The type field of a unit is the low five bits of its first byte, as in
    every unit the scanner emits. *)
Definition header_type (nal : NalUnit) : Prop :=
  ∃ b, head (nal_data nal) = Some b ∧ nal_type nal = Z.land (byte_val b) 0x1F.

(** What one unit contributes to [frame_info] in [analyze_reference_frames]:
    the entry appended for it, if any. *)
Definition slice_entry (nal : NalUnit) : option FrameInfo :=
  if bool_decide (nal_type nal = 7%Z) then None
  else if bool_decide (nal_type nal = 8%Z) then None
  else if bool_decide (nal_type nal ∈ [1; 2; 3; 4; 5]%Z) then
    slice_info ← parse_slice_header (nal_data nal);
    Some {| fi_nal_type := nal_type nal;
            fi_slice_type := si_slice_type slice_info;
            fi_is_reference := si_is_reference slice_info;
            fi_size := nal_size nal |}
  else None.

(** An entry of [frame_info] whose reference flag follows from its type, as
    in every entry built from a unit with a well-formed header. *)
Definition classified (f : FrameInfo) : Prop :=
  fi_is_reference f = bool_decide (fi_nal_type f ∈ [1; 2; 5]%Z).

(** Packet sizes on which the float model of the statistics is exact: every
    size, their sum and their number are exactly representable. *)
Definition exact_sizes (sizes : list Z) : Prop :=
  Forall exact_int sizes ∧ exact_int (py_sum sizes) ∧ exact_int (len sizes).

(** The index of the first frame of a GOP. *)
Definition first_index (gop : list GopFrame) : option nat := gf_index <$> head gop.

(** * Reports, listings, the header trace and a whole run *)

(** ** Annex-B streams *)

(** The stream written from (start code, payload) pairs. *)
Fixpoint annex_b (units : list (list byte * list byte)) : list byte :=
  match units with
  | [] => []
  | (code, payload) :: units => code ++ payload ++ annex_b units
  end.

(** The units of such a stream whose first start code is at [pos]. *)
Fixpoint units_at (pos : nat) (units : list (list byte * list byte)) : list NalUnit :=
  match units with
  | [] => []
  | (code, payload) :: units =>
      {| nal_type := match payload with
                     | b :: _ => Z.land (byte_val b) 0x1F
                     | [] => 0%Z
                     end;
         nal_data := payload;
         nal_size := length payload;
         nal_offset := pos + length code |}
      :: units_at (pos + length code + length payload) units
  end.

(** A byte string that holds no start code and does not end in a zero byte,
    so that no start code begins in it whatever follows. *)
Definition clean_payload (payload : list byte) : bool :=
  match last payload with
  | None => false
  | Some b => negb (bool_decide (b = x00))
  end
  && forallb (λ i, negb (is_start_code (drop i payload))) (seq 0 (length payload)).

(** Units placed one after the other from [pos] on, each at least three
    bytes (a start code) after the end of the one before, the last one ending
    within [buf_len] bytes. *)
Fixpoint laid_out (buf_len pos : nat) (nal_units : list NalUnit) : Prop :=
  match nal_units with
  | [] => pos ≤ buf_len
  | n :: nal_units =>
      pos + 3 ≤ nal_offset n ∧ 1 ≤ nal_size n ∧
      laid_out buf_len (nal_offset n + nal_size n) nal_units
  end.

(** ** Reference analysis *)

(** The units that contribute an entry to [frame_info]: a slice type, and
    at least two bytes of data. *)
Definition slice_unit (nal : NalUnit) : Prop :=
  nal_type nal ∈ [1; 2; 3; 4; 5]%Z ∧ 2 ≤ length (nal_data nal).

#[global] Instance slice_unit_dec (nal : NalUnit) : Decision (slice_unit nal).
Proof. unfold slice_unit. apply _. Defined.

(** The entry of such a unit. *)
Definition entry_of (nal : NalUnit) : FrameInfo :=
  {| fi_nal_type := nal_type nal;
     fi_slice_type :=
       if bool_decide (nal_type nal = 5%Z) then Some "I"%string
       else if bool_decide (nal_type nal = 1%Z) then Some "P/B"%string
       else None;
     fi_is_reference := bool_decide (nal_type nal ∈ [1; 2; 5]%Z);
     fi_size := nal_size nal |}.

(** ** GOPs *)

(** The test [frame.get('pict_type', 'Unknown') == 'I'] on an input frame. *)
Definition is_i_frame (frame : gmap string JsonValue) : bool :=
  bool_decide (default (JStr "Unknown") (frame !! "pict_type"%string) = JStr "I").

(** A GOP that begins with an I frame. *)
Definition starts_with_i (gop : list GopFrame) : Prop :=
  ∃ f, head gop = Some f ∧ gf_type f = JStr "I".

(** A GOP with no I frame after its first frame. *)
Definition no_i_after_first (gop : list GopFrame) : Prop :=
  Forall (λ f, gf_type f ≠ JStr "I") (tail gop).

(** ** GOP report *)

(** The size statistics [print_gop_analysis] prints when there are GOPs. *)
Record GopSizeStats := mkGopSizeStats {
  gs_min : Z;
  gs_max : Z;
  gs_avg : float;
  gs_min_duration : float;
  gs_max_duration : float
}.

(** A GOP whose frame types are all strings, as ffprobe writes them.  The
    preview [print_gop_analysis] prints of the first five GOPs joins the
    frame types with [' '.join], which takes strings only. *)
Definition str_typed (gop : list GopFrame) : Prop :=
  Forall (λ f, ∃ s, gf_type f = JStr s) gop.

(** An input frame whose ['pict_type'], when it has one, is a string. *)
Definition str_pict_type (frame : gmap string JsonValue) : Prop :=
  ∀ v, frame !! "pict_type"%string = Some v → ∃ s, v = JStr s.

(** The values [print_gop_analysis] computes and prints.  The preview of the
    first five GOPs is left out: on GOPs that are [str_typed] it only
    prints. *)
Record GopReport := mkGopReport {
  gr_total : Z;
  gr_sizes : option GopSizeStats
}.

(** [print_gop_analysis(gops, framerate)]. *)
Definition print_gop_analysis (gops : list (list GopFrame)) (framerate : Z)
  : exn GopReport :=
  let gop_sizes := len <$> gops in
  stats ←
    match gop_sizes with
    | [] => Ok None
    | _ :: _ =>
        min_size ← py_min gop_sizes;
        max_size ← py_max gop_sizes;
        avg ← int_truediv (py_sum gop_sizes) (len gop_sizes);
        min_duration ← int_truediv min_size framerate;
        max_duration ← int_truediv max_size framerate;
        Ok (Some {| gs_min := min_size;
                    gs_max := max_size;
                    gs_avg := avg;
                    gs_min_duration := min_duration;
                    gs_max_duration := max_duration |})
    end;
  Ok {| gr_total := len gops; gr_sizes := stats |}.

(** ** The listing of the largest frames *)

(** [enumerate(l)]. *)
Definition enumerate {A} (l : list A) : list (nat * A) := imap (λ i x, (i, x)) l.

(** [sorted(..., key=lambda x: x[1], reverse=True)] on (index, size) pairs.
    Python's sort is stable, also with [reverse=True]: pairs of equal size
    keep their original order.  Inserting the pairs from the right, each one
    before the first pair that is not larger, builds that list. *)
Fixpoint insert_desc (x : nat * Z) (l : list (nat * Z)) : list (nat * Z) :=
  match l with
  | [] => [x]
  | y :: l' => if (y.2 <=? x.2)%Z then x :: l else y :: insert_desc x l'
  end.

Definition sorted_desc (l : list (nat * Z)) : list (nat * Z) :=
  foldr insert_desc [] l.

(** The pairs [sorted_frames[:5]] that [print_bitrate_analysis] lists. *)
Definition largest_frames (frame_sizes : list Z) : list (nat * Z) :=
  take 5 (sorted_desc (enumerate frame_sizes)).

(** The order of that listing: larger size first, and for equal sizes the
    smaller index first. *)
Definition listed_before (a b : nat * Z) : Prop :=
  (b.2 < a.2)%Z ∨ (b.2 = a.2 ∧ a.1 < b.1).

(** ** Packet sizes *)

Section PacketSizes.

(** [int(s)] on a string is kept abstract: it returns the integer the string
    denotes or raises [ValueError]. *)
Variable int_of_str : string → exn Z.

(** [int(v)] on a JSON scalar. *)
Definition py_int (v : JsonValue) : exn Z :=
  match v with
  | JInt z => Ok z
  | JStr s => int_of_str s
  end.

(** The test [packet.get('codec_type') == 'video']. *)
Definition is_video (packet : gmap string JsonValue) : Prop :=
  packet !! "codec_type"%string = Some (JStr "video").

(** [packet.get('size', 0)]. *)
Definition size_field (packet : gmap string JsonValue) : JsonValue :=
  default (JInt 0) (packet !! "size"%string).

(** The loop of [analyze_bitrate], threading [frame_sizes] and
    [total_size]. *)
Fixpoint bitrate_loop (packets : list (gmap string JsonValue))
    (frame_sizes : list Z) (total_size : Z) : exn (list Z * Z) :=
  match packets with
  | [] => Ok (frame_sizes, total_size)
  | packet :: packets =>
      if bool_decide (is_video packet) then
        size ← py_int (size_field packet);
        bitrate_loop packets (frame_sizes ++ [size]) (total_size + size)
      else bitrate_loop packets frame_sizes total_size
  end.

(** [analyze_bitrate(packets)]. *)
Definition analyze_bitrate (packets : list (gmap string JsonValue))
  : exn (list Z * Z) :=
  bitrate_loop packets [] 0.

End PacketSizes.

(** ** Parsing the header trace *)

(** [needle in s] on strings. *)
Fixpoint contains (needle s : string) : bool :=
  String.prefix needle s ||
  match s with
  | EmptyString => false
  | String _ s' => contains needle s'
  end.

(** [s.split(sep)] for a separator of one character: the pieces between the
    occurrences of [sep], one more than there are occurrences. *)
Fixpoint split_on (sep : ascii) (s : string) : list string :=
  match s with
  | EmptyString => [EmptyString]
  | String c s' =>
      if bool_decide (c = sep) then EmptyString :: split_on sep s'
      else match split_on sep s' with
           | piece :: pieces => String c piece :: pieces
           | [] => [String c EmptyString]
           end
  end.

Section TraceParsing.

(** [s.strip()] and [s.split()] are kept abstract: which characters count as
    white space is the runtime's matter. *)
Variable strip : string → string.
Variable split_ws : string → list string.

(** The block shared by the three parsers: a line with exactly one [=]
    assigns the stripped right-hand side to the last word of the left-hand
    side, if there is a word. *)
Definition parse_param_line (line : string) : option (string * string) :=
  if contains "=" line then
    match split_on "="%char line with
    | [part0; part1] =>
        let param_line := strip part0 in
        let value := strip part1 in
        match last (split_ws param_line) with
        | Some param_name => Some (param_name, value)
        | None => None
        end
    | _ => None
    end
  else None.


(** The loop of [parse_sps_parameters], threading [in_sps] and
    [sps_params]. *)
Fixpoint sps_loop (lines : list string) (in_sps : bool)
    (sps_params : gmap string string) : gmap string string :=
  match lines with
  | [] => sps_params
  | line :: lines =>
      if contains "Sequence Parameter Set" line then sps_loop lines true sps_params
      else if contains "Picture Parameter Set" line || contains "Slice Header" line
      then sps_loop lines false sps_params
      else
        let sps_params :=
          if in_sps then
            match parse_param_line line with
            | Some (param_name, value) => <[param_name := value]> sps_params
            | None => sps_params
            end
          else sps_params in
        sps_loop lines in_sps sps_params
  end.

Definition parse_sps_parameters (trace_output : string) : gmap string string :=
  sps_loop (split_on "010"%char trace_output) false ∅.

(** The loop of [parse_pps_parameters]. *)
Fixpoint pps_loop (lines : list string) (in_pps : bool)
    (pps_params : gmap string string) : gmap string string :=
  match lines with
  | [] => pps_params
  | line :: lines =>
      if contains "Picture Parameter Set" line then pps_loop lines true pps_params
      else if contains "Slice Header" line || contains "Sequence Parameter Set" line
      then pps_loop lines false pps_params
      else
        let pps_params :=
          if in_pps then
            match parse_param_line line with
            | Some (param_name, value) => <[param_name := value]> pps_params
            | None => pps_params
            end
          else pps_params in
        pps_loop lines in_pps pps_params
  end.

Definition parse_pps_parameters (trace_output : string) : gmap string string :=
  pps_loop (split_on "010"%char trace_output) false ∅.

(** The loop of [parse_slice_headers], threading [slice_headers],
    [current_slice] and [in_slice]; it returns the first two when the lines
    are used up or the loop breaks. *)
Fixpoint slice_headers_loop (lines : list string)
    (slice_headers : list (gmap string string))
    (current_slice : gmap string string) (in_slice : bool)
  : list (gmap string string) * gmap string string :=
  match lines with
  | [] => (slice_headers, current_slice)
  | line :: lines =>
      if contains "Slice Header" line then
        let slice_headers :=
          if bool_decide (current_slice ≠ ∅) then slice_headers ++ [current_slice]
          else slice_headers in
        slice_headers_loop lines slice_headers ∅ true
      else if (contains "Picture Parameter Set" line
               || contains "Sequence Parameter Set" line)
              && bool_decide (current_slice ≠ ∅)
      then slice_headers_loop lines (slice_headers ++ [current_slice]) ∅ false
      else
        let current_slice :=
          if in_slice then
            match parse_param_line line with
            | Some (param_name, value) => <[param_name := value]> current_slice
            | None => current_slice
            end
          else current_slice in
        if bool_decide (5 ≤ length slice_headers)
        then (slice_headers, current_slice)
        else slice_headers_loop lines slice_headers current_slice in_slice
  end.

Definition parse_slice_headers (trace_output : string) : list (gmap string string) :=
  let '(slice_headers, current_slice) :=
    slice_headers_loop (split_on "010"%char trace_output) [] ∅ false in
  if bool_decide (current_slice ≠ ∅) && bool_decide (length slice_headers < 5)
  then slice_headers ++ [current_slice]
  else slice_headers.

End TraceParsing.

(** ** A run of [analyze_video] *)

Section Run.

Variable int_of_str : string → exn Z.

(** The branch [if h264_data:] of [analyze_video]: the entries of the
    reference analysis of the extracted stream, printed on the way, and no
    entries when the extraction failed or gave no bytes.  [parse_nal_units]
    always returns ([parse_nal_units_total]), so the default is never
    taken. *)
Definition reference_frames_of (h264_data : option (list byte))
  : exn (list FrameInfo) :=
  match h264_data with
  | Some (b :: data) =>
      let nal_units := default [] (parse_nal_units (b :: data)) in
      let ref_data := analyze_reference_frames nal_units in
      _ ← print_reference_analysis ref_data;
      Ok (frames ref_data)
  | _ => Ok []
  end.

(** [analyze_video(video_path, framerate)] from what the three external
    commands gave.  [frame_data] and [packet_data] are [None] when ffprobe
    failed or printed an empty object, and hold the list under ['frames'] and
    ['packets'] otherwise (the empty list when the key is absent);
    [h264_data] is what [extract_raw_h264_stream] returned.  The function
    prints the GOP and the bitrate analysis, then the reference analysis of
    the extracted stream when there is one, and last computes the summary
    ([analyze_video] above). *)
Definition analyze_video_run
    (frame_data packet_data : option (list (gmap string JsonValue)))
    (h264_data : option (list byte)) (framerate : Z) : exn (option Summary) :=
  match frame_data with
  | None => Ok None
  | Some frame_list =>
      match packet_data with
      | None => Ok None
      | Some packets =>
          let gops := analyze_gop_structure frame_list in
          _ ← print_gop_analysis gops framerate;
          sizes ← analyze_bitrate int_of_str packets;
          let frame_sizes := sizes.1 in
          _ ← print_bitrate_analysis frame_sizes framerate;
          ref_frames ← reference_frames_of h264_data;
          analyze_video frame_sizes gops ref_frames framerate
      end
  end.

End Run.


(** * Sample runs of the model *)

Example scan_two_units :
  parse_nal_units [x00; x00; x00; x01; x67; x42; x00; x00; x01; x65; x88; x80]
  = Some [ mkNalUnit 7 [x67; x42] 2 4; mkNalUnit 5 [x65; x88; x80] 3 9 ].
Proof. vm_compute. reflexivity. Qed.

Example scan_trailing_code :
  parse_nal_units [xaa; x00; x00; x01; x41; x00; x00; x01; x00; x00; x01]
  = Some [ mkNalUnit 1 [x41] 1 4 ].
Proof. vm_compute. reflexivity. Qed.


Example gop_two_groups :
  map (map gf_index)
    (analyze_gop_structure
       ((λ t, {[ "pict_type"%string := JStr t ]}) <$> ["I"; "P"; "P"; "I"; "P"]%string))
  = [[0; 1; 2]; [3; 4]].
Proof. by vm_compute. Qed.

Example gop_open_start :
  map (map gf_index)
    (analyze_gop_structure
       [ {[ "pict_type"%string := JStr "B" ]}; ∅; {[ "pict_type"%string := JStr "I" ]} ])
  = [[0; 1]; [2]].
Proof. by vm_compute. Qed.

Example classify_idr :
  parse_slice_header [x65; x88]
  = Some (mkSliceInfo 5 (Some "I"%string) None (Some 0%Z) true).
Proof. reflexivity. Qed.

(** * Properties *)

(** ** Start codes *)

Section StartCodes.

Lemma is_start_code_take4 (l : list byte) :
  is_start_code (take 4 l) = is_start_code l.
Proof. unfold is_start_code. by rewrite !take_take. Qed.

Lemma is_start_code_short (l : list byte) :
  length l < 3 → is_start_code l = false.
Proof.
  intros Hl. unfold is_start_code.
  apply orb_false_intro; apply bool_decide_eq_false; intros Heq;
    apply (f_equal length) in Heq; rewrite length_take in Heq;
    unfold start_code4, start_code3 in Heq; cbn [length] in Heq; lia.
Qed.

Lemma is_start_code_cases (l : list byte) :
  is_start_code l = true ↔
  (∃ l', l = start_code4 ++ l') ∨ (∃ l', l = start_code3 ++ l').
Proof.
  unfold is_start_code. rewrite orb_true_iff, !bool_decide_eq_true. split.
  - intros [H | H]; [left | right]; eexists;
      rewrite <- H; symmetry; apply take_drop.
  - intros [[l' ->] | [l' ->]]; [left | right]; reflexivity.
Qed.

Lemma next_start_code_le (l : list byte) : next_start_code l ≤ length l.
Proof.
  induction l as [|b l IH]; cbn [next_start_code length]; [lia|].
  destruct (is_start_code (b :: l)); lia.
Qed.

Lemma next_start_code_short (l : list byte) :
  length l < 3 → next_start_code l = length l.
Proof.
  induction l as [|b l IH]; intros Hl; cbn [next_start_code length] in *; [done|].
  rewrite is_start_code_short by (cbn; lia). rewrite IH; lia.
Qed.

(** At the computed distance a start code begins, unless the string is
    exhausted. *)
Lemma next_start_code_found (l : list byte) :
  next_start_code l = length l ∨
  is_start_code (drop (next_start_code l) l) = true.
Proof.
  induction l as [|b l IH]; cbn [next_start_code length]; [by left|].
  destruct (is_start_code (b :: l)) eqn:E; [by right|].
  cbn [drop]. destruct IH as [->|IH]; auto.
Qed.

(** No start code begins before the computed distance. *)
Lemma next_start_code_first (l : list byte) (i : nat) :
  i < next_start_code l → is_start_code (drop i l) = false.
Proof.
  revert i. induction l as [|b l IH]; intros i; cbn [next_start_code]; [lia|].
  destruct (is_start_code (b :: l)) eqn:E; [lia|].
  destruct i as [|i]; [done|]. cbn [drop]. intros Hi. apply IH. lia.
Qed.

Lemma next_start_code_here (l : list byte) :
  is_start_code l = true → next_start_code l = 0.
Proof.
  destruct l as [|b l]; [done|]. cbn [next_start_code]. by intros ->.
Qed.

Lemma next_start_code_step (b : byte) (l : list byte) :
  is_start_code (b :: l) = false →
  next_start_code (b :: l) = S (next_start_code l).
Proof. cbn [next_start_code]. by intros ->. Qed.

Lemma next_start_code_idem (l : list byte) :
  next_start_code (drop (next_start_code l) l) = 0.
Proof.
  destruct (next_start_code_found l) as [-> | H].
  - by rewrite drop_all.
  - by apply next_start_code_here.
Qed.

End StartCodes.

(** ** The inner loop finds the next start code *)

Lemma find_next_start_spec (buf : list byte) (fuel pos : nat) :
  pos ≤ length buf → length buf < pos + fuel →
  find_next_start fuel buf (mkBytesIO buf pos)
  = Some (pos + next_start_code (drop pos buf)).
Proof.
  revert pos. induction fuel as [|fuel IH]; intros pos Hpos Hfuel; [lia|].
  cbn [find_next_start read tell getvalue].
  rewrite is_start_code_take4.
  assert (Hlen : length (drop pos buf) = length buf - pos) by apply length_drop.
  rewrite length_take.
  destruct (Nat.ltb_spec (4 `min` length (drop pos buf)) 3) as [Hs | Hs].
  - rewrite next_start_code_short by lia. f_equal. lia.
  - destruct (is_start_code (drop pos buf)) eqn:E.
    + rewrite next_start_code_here by done. f_equal. lia.
    + destruct (drop pos buf) as [|b l] eqn:Ed; [cbn in Hs; lia|].
      rewrite next_start_code_step by done.
      unfold seek. cbn [getvalue].
      rewrite IH by (cbn in Hlen; lia).
      assert (Hl : drop (pos + 1) buf = l) by (by rewrite <- drop_drop, Ed).
      rewrite Hl. f_equal. lia.
Qed.

Lemma framed_short (l : list byte) :
  length l < 4 → framed (drop (next_start_code l) l) [].
Proof.
  intros Hl. destruct (next_start_code_found l) as [-> | H].
  - rewrite drop_all. constructor.
  - assert (Hd : length (drop (next_start_code l) l) < 4)
      by (rewrite length_drop; lia).
    revert H Hd. generalize (drop (next_start_code l) l). intros d H Hd.
    apply is_start_code_cases in H as [[l' ->] | [l' ->]].
    + rewrite length_app in Hd. cbn in Hd. lia.
    + rewrite length_app in Hd. destruct l'; [|cbn in Hd; lia].
      apply framed_code; [by left | constructor].
Qed.

(** One round of the outer loop that starts at a start code: the payload up
    to the next start code is emitted unless it is empty, and the scan
    resumes at that next start code.  [Hrec] is the statement for the
    remaining rounds. *)
Lemma scan_emit (buf : list byte) (fuel pos c : nat) (code : list byte)
    (acc : list NalUnit) :
  (∀ pos acc, pos ≤ length buf → length buf < pos + fuel →
     ∃ new, scan_nal_units fuel buf (mkBytesIO buf pos) acc = Some (acc ++ new) ∧
            Forall (nal_span buf) new ∧
            framed (drop (pos + next_start_code (drop pos buf)) buf)
                   (nal_data <$> new)) →
  code = start_code3 ∨ code = start_code4 → length code = c →
  take c (drop pos buf) = code →
  length buf < pos + S fuel →
  let start := pos + c in
  let next := start + next_start_code (drop start buf) in
  let payload := take (next - start) (drop start buf) in
  ∃ new,
    scan_nal_units fuel buf (seek next (mkBytesIO buf (start + length payload)))
      match payload with
      | [] => acc
      | b :: _ =>
          acc ++ [ {| nal_type := Z.land (byte_val b) 0x1F;
                      nal_data := payload;
                      nal_size := next - start;
                      nal_offset := start |} ]
      end = Some (acc ++ new) ∧
    Forall (nal_span buf) new ∧
    framed (drop pos buf) (nal_data <$> new).
Proof.
  intros Hrec Hcode Hc Htake Hfuel start next payload.
  assert (Es : start = pos + c) by done.
  assert (En : next = start + next_start_code (drop start buf)) by done.
  assert (Ep : payload = take (next - start) (drop start buf)) by done.
  clearbody start next payload.
  assert (Hc3 : 3 ≤ c) by (destruct Hcode; subst; cbn; lia).
  assert (Hstart : start ≤ length buf).
  { apply (f_equal length) in Htake. rewrite length_take, length_drop in Htake.
    lia. }
  assert (Hsplit : drop pos buf = code ++ drop start buf).
  { rewrite <- (take_drop c (drop pos buf)), Htake, drop_drop. by subst start. }
  pose proof (next_start_code_le (drop start buf)) as Hk.
  rewrite length_drop in Hk.
  assert (Hrest : drop next buf
                  = drop (next_start_code (drop start buf)) (drop start buf))
    by (by rewrite drop_drop, En).
  assert (Hlen : length payload = next - start).
  { rewrite Ep, length_take, length_drop. lia. }
  unfold seek. cbn [getvalue].
  destruct payload as [|b t].
  - destruct (Hrec next acc) as (new & Hrun & Hall & Hfr); [lia.. |].
    exists new. split_and!; [done.. |].
    rewrite Hrest, next_start_code_idem, Nat.add_0_r in Hfr.
    cbn in Hlen.
    rewrite Hsplit. apply framed_code; [done|].
    replace (drop start buf) with (drop next buf); [done|].
    f_equal. lia.
  - set (n := {| nal_type := Z.land (byte_val b) 0x1F; nal_data := b :: t;
                 nal_size := next - start; nal_offset := start |}).
    destruct (Hrec next (acc ++ [n])) as (new & Hrun & Hall & Hfr); [lia.. |].
    exists (n :: new). rewrite Hrun, <- app_assoc. split_and!; [done | |].
    + constructor; [|done].
      split; cbn [nal_offset nal_size nal_data nal_type n].
      * exists code. split_and!; [done | lia |].
        rewrite Hc. replace (start - c) with pos by lia. done.
      * done.
      * lia.
      * split; [|done]. rewrite <- Hlen. cbn. lia.
      * by exists b.
    + rewrite Hrest, next_start_code_idem, Nat.add_0_r in Hfr.
      cbn [fmap list_fmap nal_data n].
      rewrite Hsplit, <- (take_drop (next - start) (drop start buf)), <- Ep.
      apply framed_payload; [done | done |].
      rewrite drop_drop. replace (start + (next - start)) with next by lia. done.
Qed.

(** The outer loop, started anywhere in the buffer: it returns, and what it
    appends is laid out in the buffer from the next start code onward. *)
Lemma scan_nal_units_spec (buf : list byte) (fuel pos : nat) (acc : list NalUnit) :
  pos ≤ length buf → length buf < pos + fuel →
  ∃ new, scan_nal_units fuel buf (mkBytesIO buf pos) acc = Some (acc ++ new) ∧
         Forall (nal_span buf) new ∧
         framed (drop (pos + next_start_code (drop pos buf)) buf) (nal_data <$> new).
Proof.
  revert pos acc. induction fuel as [|fuel IH]; intros pos acc Hpos Hfuel; [lia|].
  cbn [scan_nal_units read tell getvalue].
  assert (Hlen : length (drop pos buf) = length buf - pos) by apply length_drop.
  rewrite length_take.
  destruct (Nat.ltb_spec (4 `min` length (drop pos buf)) 4) as [Hs | Hs].
  { exists []. rewrite app_nil_r. split_and!; [done | constructor |].
    rewrite <- drop_drop. apply framed_short. lia. }
  replace (4 `min` length (drop pos buf)) with 4 by lia.
  destruct (bool_decide (take 4 (drop pos buf) = start_code4)) eqn:E4;
    [|destruct (bool_decide (take 3 (take 4 (drop pos buf)) = start_code3)) eqn:E3].
  - apply bool_decide_eq_true in E4.
    cbn [tell seek getvalue].
    rewrite find_next_start_spec by lia.
    rewrite (next_start_code_here (drop pos buf)), Nat.add_0_r
      by (apply is_start_code_cases; left; eexists;
          rewrite <- E4; symmetry; apply take_drop).
    by apply (scan_emit buf fuel pos 4 start_code4 acc IH); auto.
  - apply bool_decide_eq_true in E3. rewrite take_take in E3.
    unfold seek_back. cbn [tell seek getvalue].
    replace (pos + 4 - 1) with (pos + 3) by lia.
    rewrite find_next_start_spec by lia.
    rewrite (next_start_code_here (drop pos buf)), Nat.add_0_r
      by (apply is_start_code_cases; right; eexists;
          rewrite <- E3; symmetry; apply take_drop).
    by apply (scan_emit buf fuel pos 3 start_code3 acc IH); auto.
  - apply bool_decide_eq_false in E4, E3. rewrite take_take in E3.
    cbn [seek getvalue].
    destruct (IH (pos + 1) acc) as (new & Hrun & Hall & Hfr); [lia.. |].
    exists new. split_and!; [done.. |].
    destruct (drop pos buf) as [|b l] eqn:Ed; [cbn in Hs; lia|].
    assert (Hl : drop (pos + 1) buf = l) by (by rewrite <- drop_drop, Ed).
    rewrite next_start_code_step.
    + rewrite Hl in Hfr. by replace (pos + S (next_start_code l))
        with (pos + 1 + next_start_code l) by lia.
    + unfold is_start_code. apply orb_false_intro; by apply bool_decide_eq_false.
Qed.

(** The scanner returns on every buffer. *)
Lemma parse_nal_units_total (h264_data : list byte) :
  ∃ nal_units, parse_nal_units h264_data = Some nal_units.
Proof.
  destruct (scan_nal_units_spec h264_data (S (length h264_data)) 0 [])
    as (new & Hrun & _); [lia.. |].
  by exists new.
Qed.


(** ** NAL classifier *)

Section Classifier.

Lemma parse_slice_header_short (data : list byte) :
  length data < 2 → parse_slice_header data = None.
Proof.
  intros Hlen. unfold parse_slice_header.
  by destruct (Nat.ltb_spec (length data) 2); [|lia].
Qed.

(** With two bytes or more, a slice type always yields the dictionary. *)
Lemma parse_slice_header_slice (nal : NalUnit) :
  header_type nal → 2 ≤ length (nal_data nal) →
  nal_type nal ∈ [1; 2; 3; 4; 5]%Z →
  parse_slice_header (nal_data nal)
  = Some {| si_nal_type := nal_type nal;
            si_slice_type :=
              if bool_decide (nal_type nal = 5%Z) then Some "I"%string
              else if bool_decide (nal_type nal = 1%Z) then Some "P/B"%string
              else None;
            si_frame_num := None;
            si_idr_pic_id :=
              if bool_decide (nal_type nal ≠ 5%Z) then None else Some 0%Z;
            si_is_reference := bool_decide (nal_type nal ∈ [1; 2; 5]%Z) |}.
Proof.
  intros (b & Hb & Ht) Hlen Hin. unfold parse_slice_header.
  destruct (Nat.ltb_spec (length (nal_data nal)) 2); [lia|].
  destruct (nal_data nal) as [|b' rest]; [done|].
  cbn in Hb. injection Hb as ->. rewrite <- Ht.
  rewrite (bool_decide_eq_true_2 _ Hin). cbn [negb].
  by repeat case_bool_decide.
Qed.

End Classifier.

(** C1, as the code has it: a unit of at least two bytes whose type is one of
    1..5 is classified, with [is_reference] true exactly for the types 1, 2
    and 5, and the IDR test true exactly for type 5. *)
Theorem slice_reference_classification (nal : NalUnit) :
  header_type nal → 2 ≤ length (nal_data nal) →
  nal_type nal ∈ [1; 2; 3; 4; 5]%Z →
  ∃ info, parse_slice_header (nal_data nal) = Some info ∧
          si_nal_type info = nal_type nal ∧
          (si_is_reference info = true ↔ nal_type nal ∈ [1; 2; 5]%Z) ∧
          (is_idr (si_nal_type info) = true ↔ nal_type nal = 5%Z).
Proof.
  intros Hh Hlen Hin. eexists. split; [by apply parse_slice_header_slice|].
  cbn. unfold is_idr. by rewrite !bool_decide_eq_true.
Qed.

Lemma slice_reference_classification_idr :
  ∃ info, parse_slice_header [x65; x88] = Some info ∧
          si_nal_type info = 5%Z ∧
          (si_is_reference info = true ↔ 5%Z ∈ [1; 2; 5]%Z) ∧
          (is_idr (si_nal_type info) = true ↔ 5%Z = 5%Z).
Proof.
  apply (slice_reference_classification (mkNalUnit 5 [x65; x88] 2 3)).
  - by exists x65.
  - cbn. lia.
  - set_solver.
Defined.

(** C1, as the spec states it, fails: the scanner emits the one-byte unit
    [65] of type 5, and the classifier derives nothing from it. *)
Lemma one_byte_idr_unit_unclassified :
  parse_nal_units [x00; x00; x01; x65] = Some [mkNalUnit 5 [x65] 1 3] ∧
  ¬ ∃ info, parse_slice_header [x65] = Some info ∧
            si_is_reference info = true ∧ is_idr (si_nal_type info) = true.
Proof. split; [by vm_compute|]. by intros (info & [=] & _). Qed.

(** C2, as the code has it: for a unit of at least two bytes, the slice type
    is "I" for type 5, "P/B" for type 1, and left unset for types 2, 3, 4. *)
Theorem slice_type_classification (nal : NalUnit) :
  header_type nal → 2 ≤ length (nal_data nal) →
  nal_type nal ∈ [1; 2; 3; 4; 5]%Z →
  ∃ info, parse_slice_header (nal_data nal) = Some info ∧
          si_slice_type info =
            if is_idr (nal_type nal) then Some "I"%string
            else if bool_decide (nal_type nal = 1%Z) then Some "P/B"%string
            else None.
Proof.
  intros Hh Hlen Hin. eexists. split; [by apply parse_slice_header_slice|done].
Qed.

Lemma slice_type_classification_partition_a :
  ∃ info, parse_slice_header [x42; x00] = Some info ∧ si_slice_type info = None.
Proof.
  apply (slice_type_classification (mkNalUnit 2 [x42; x00] 2 3)).
  - by exists x42.
  - cbn. lia.
  - set_solver.
Defined.

(** C2, as the spec states it, fails on a data-partition unit: type 2 is not
    IDR, and its slice type is not "P/B". *)
Lemma partition_unit_slice_type_unset :
  parse_nal_units [x00; x00; x01; x42; x00] = Some [mkNalUnit 2 [x42; x00] 2 3] ∧
  ¬ ∃ info, parse_slice_header [x42; x00] = Some info ∧
            si_slice_type info =
              Some (if is_idr 2 then "I"%string else "P/B"%string).
Proof. split; [by vm_compute|]. by intros (info & [= <-] & [=]). Qed.

(** ** Reference-frame analysis *)

Lemma reference_loop_frames (nal_units : list NalUnit) (acc : RefData) :
  frames (reference_loop nal_units acc) = frames acc ++ omap slice_entry nal_units.
Proof.
  revert acc. induction nal_units as [|nal rest IH]; intros acc; cbn [reference_loop omap list_omap].
  - by rewrite app_nil_r.
  - rewrite IH. unfold slice_entry.
    repeat case_bool_decide; cbn [frames]; try done.
    destruct (parse_slice_header (nal_data nal)); cbn [frames mbind option_bind];
      [by rewrite <- app_assoc | done].
Qed.

Lemma analyze_reference_frames_frames (nal_units : list NalUnit) :
  frames (analyze_reference_frames nal_units) = omap slice_entry nal_units.
Proof. unfold analyze_reference_frames. by rewrite reference_loop_frames. Qed.

(** C10: a unit with fewer than two bytes of data gets no classification,
    whatever its type, and the reference analysis of a stream is the same
    with or without it: its frame list, hence every count and ratio of the
    report. *)
Theorem short_unit_excluded (nal : NalUnit) (before after : list NalUnit) :
  length (nal_data nal) < 2 →
  parse_slice_header (nal_data nal) = None ∧
  frames (analyze_reference_frames (before ++ nal :: after))
  = frames (analyze_reference_frames (before ++ after)) ∧
  print_reference_analysis (analyze_reference_frames (before ++ nal :: after))
  = print_reference_analysis (analyze_reference_frames (before ++ after)).
Proof.
  intros Hlen.
  assert (Hnone : parse_slice_header (nal_data nal) = None)
    by by apply parse_slice_header_short.
  assert (Hframes : frames (analyze_reference_frames (before ++ nal :: after))
                    = frames (analyze_reference_frames (before ++ after))).
  { rewrite !analyze_reference_frames_frames, !omap_app. f_equal.
    cbn [omap list_omap]. unfold slice_entry at 1. rewrite Hnone.
    by repeat case_bool_decide. }
  split_and!; [done.. |].
  unfold print_reference_analysis. by rewrite Hframes.
Qed.

Lemma short_unit_excluded_idr :
  parse_slice_header [x65] = None ∧
  frames (analyze_reference_frames
            [mkNalUnit 1 [x41; x9a] 2 3; mkNalUnit 5 [x65] 1 8;
             mkNalUnit 3 [x43; x00] 2 12])
  = frames (analyze_reference_frames
              [mkNalUnit 1 [x41; x9a] 2 3; mkNalUnit 3 [x43; x00] 2 12]) ∧
  print_reference_analysis
    (analyze_reference_frames
       [mkNalUnit 1 [x41; x9a] 2 3; mkNalUnit 5 [x65] 1 8;
        mkNalUnit 3 [x43; x00] 2 12])
  = print_reference_analysis
      (analyze_reference_frames
         [mkNalUnit 1 [x41; x9a] 2 3; mkNalUnit 3 [x43; x00] 2 12]).
Proof.
  apply (short_unit_excluded (mkNalUnit 5 [x65] 1 8)
           [mkNalUnit 1 [x41; x9a] 2 3] [mkNalUnit 3 [x43; x00] 2 12]).
  cbn. lia.
Defined.

(** ** NAL scanner *)

Lemma framed_nil_inv (payloads : list (list byte)) :
  framed [] payloads → payloads = [].
Proof.
  inversion 1 as [| code rest ps Hc Hf Heq | code p rest ps Hc Hp Hf Heq]; [done | |];
    destruct Hc; subst; discriminate.
Qed.

Lemma no_start_code_distance (buf : list byte) :
  (∀ i, is_start_code (drop i buf) = false) → next_start_code buf = length buf.
Proof.
  intros Hno. destruct (next_start_code_found buf) as [H | H]; [done|].
  by rewrite Hno in H.
Qed.

Lemma nal_span_type_range (buf : list byte) (n : NalUnit) :
  nal_span buf n → (0 ≤ nal_type n ≤ 31)%Z.
Proof.
  intros [_ _ _ _ (b & _ & ->)]. split.
  - apply Z.land_nonneg. right. lia.
  - change 31%Z with (Z.ones 5). rewrite Z.land_ones by lia.
    change (2 ^ 5)%Z with 32%Z.
    pose proof (Z.mod_pos_bound (byte_val b) 32) as H.
    change (Z.ones 5) with 31%Z. lia.
Qed.

(** C3: the scanner returns on every buffer; the emitted payloads, in order
    and each preceded by a start code, with only start codes besides, make up
    the buffer from its first start code onward; every payload is the slice
    of the buffer from the end of a start code up to the next start code, or
    up to the end of the buffer when there is none; and a buffer without any
    start code yields no unit. *)
Theorem scanner_reassembly (buf : list byte) :
  ∃ nal_units,
    parse_nal_units buf = Some nal_units ∧
    framed (drop (next_start_code buf) buf) (nal_data <$> nal_units) ∧
    Forall (nal_span buf) nal_units ∧
    ((∀ i, is_start_code (drop i buf) = false) → nal_units = []).
Proof.
  destruct (scan_nal_units_spec buf (S (length buf)) 0 [])
    as (nal_units & Hrun & Hall & Hfr); [lia.. |].
  exists nal_units. rewrite drop_0, Nat.add_0_l in Hfr.
  split_and!; [done.. |].
  intros Hno. rewrite (no_start_code_distance buf Hno), drop_all in Hfr.
  apply framed_nil_inv in Hfr. by destruct nal_units.
Qed.

Lemma scanner_reassembly_no_start_code :
  parse_nal_units [x12; x00; x00; x02; x01] = Some [].
Proof.
  destruct (scanner_reassembly [x12; x00; x00; x02; x01])
    as (nal_units & Hrun & _ & _ & Hempty).
  rewrite Hrun. f_equal. apply Hempty.
  intros i. do 6 (destruct i as [|i]; [reflexivity|]). reflexivity.
Defined.

(** C7: every emitted unit has a type in [0, 31] and a size of at least 1,
    which is the length of its data; a payload of length zero is never
    emitted. *)
Theorem emitted_units_invariant (buf : list byte) :
  ∃ nal_units,
    parse_nal_units buf = Some nal_units ∧
    Forall (λ n, (0 ≤ nal_type n ≤ 31)%Z ∧ 1 ≤ nal_size n ∧
                 length (nal_data n) = nal_size n ∧ nal_data n ≠ []) nal_units.
Proof.
  destruct (scan_nal_units_spec buf (S (length buf)) 0 [])
    as (nal_units & Hrun & Hall & _); [lia.. |].
  exists nal_units. split; [done|].
  eapply Forall_impl; [exact Hall|]. intros n Hn.
  pose proof (nal_span_type_range buf n Hn) as Ht.
  destruct Hn as [_ _ _ [Hs Hl] _]. split_and!; [lia.. | done | done |].
  intros E. rewrite E in Hl. cbn in Hl. lia.
Qed.

(** ** GOP segmenter *)

(** The loop keeps every frame seen so far, in order, in the closed GOPs
    followed by the open one, and it closes no empty GOP. *)
Lemma gop_loop_spec (frames : list (gmap string JsonValue)) (i : nat)
    (gops : list (list GopFrame)) (current_gop : list GopFrame) :
  concat (gop_loop frames i gops current_gop).1 ++ (gop_loop frames i gops current_gop).2
  = concat gops ++ current_gop ++ imap (λ j, gop_frame (i + j)) frames ∧
  (Forall (λ gop, gop ≠ []) gops →
   Forall (λ gop, gop ≠ []) (gop_loop frames i gops current_gop).1).
Proof.
  revert i gops current_gop.
  induction frames as [|frame frames IH]; intros i gops current_gop;
    cbn [gop_loop].
  - cbn. by rewrite app_nil_r.
  - rewrite imap_cons, Nat.add_0_r.
    rewrite (imap_ext _ (λ j, gop_frame (S i + j)))
      by (intros j x _; cbn; f_equal; lia).
    case_bool_decide.
    + destruct (IH (S i)
                  match current_gop with [] => gops | _ :: _ => gops ++ [current_gop] end
                  [gop_frame i frame]) as [-> Hne].
      split.
      * destruct current_gop; [done|].
        rewrite concat_app. cbn [concat]. by rewrite app_nil_r, <- !app_assoc.
      * intros Hg. apply Hne. destruct current_gop; [done|].
        apply Forall_app. split; [done|]. by repeat constructor.
    + destruct (IH (S i) gops (current_gop ++ [gop_frame i frame])) as [-> Hne].
      split; [by rewrite <- !app_assoc | done].
Qed.

(** Non-empty GOPs whose frames are numbered consecutively start at
    increasing indices. *)
Lemma gop_first_indices_sorted (gops : list (list GopFrame)) (k m : nat) :
  Forall (λ gop, gop ≠ []) gops →
  gf_index <$> concat gops = seq k m →
  StronglySorted lt (omap first_index gops) ∧
  Forall (λ h, k ≤ h) (omap first_index gops).
Proof.
  intros Hne. revert k m.
  induction Hne as [|gop rest Hgop _ IH]; intros k m Hidx.
  - split; constructor.
  - destruct gop as [|f gop]; [done|].
    destruct m as [|m]; [done|].
    cbn [concat app fmap list_fmap seq] in Hidx. injection Hidx as Hf Hrest.
    rewrite fmap_app in Hrest.
    apply (f_equal (drop (length gop))) in Hrest.
    rewrite drop_app_length', drop_seq in Hrest by (by rewrite length_fmap).
    destruct (IH _ _ Hrest) as [Hsorted Hlow].
    cbn [omap list_omap first_index head fmap option_fmap option_map]. rewrite Hf.
    split; constructor; [done | | lia |].
    + eapply Forall_impl; [exact Hlow|]. intros h Hh. cbn in Hh. lia.
    + eapply Forall_impl; [exact Hlow|]. intros h Hh. cbn in Hh. lia.
Qed.

(** C4: the GOPs, concatenated in output order, are the entries of the input
    frames in input order, each numbered by its position; no GOP is empty; so
    the sizes of the GOPs add up to the number of frames, every frame index
    occurs exactly once, the GOPs come in the order of their first frames,
    and no frames give no GOPs. *)
Theorem gop_partition (frames : list (gmap string JsonValue)) :
  concat (analyze_gop_structure frames) = imap gop_frame frames ∧
  Forall (λ gop, gop ≠ []) (analyze_gop_structure frames) ∧
  sum_list (length <$> analyze_gop_structure frames) = length frames ∧
  gf_index <$> concat (analyze_gop_structure frames) = seq 0 (length frames) ∧
  StronglySorted lt (omap first_index (analyze_gop_structure frames)) ∧
  analyze_gop_structure [] = [].
Proof.
  assert (Hcat : concat (analyze_gop_structure frames) = imap gop_frame frames
                 ∧ Forall (λ gop, gop ≠ []) (analyze_gop_structure frames)).
  { unfold analyze_gop_structure.
    destruct (gop_loop_spec frames 0 [] []) as [Hc Hne].
    destruct (gop_loop frames 0 [] []) as [gops current_gop].
    cbn [fst snd concat app] in Hc, Hne. specialize (Hne (Forall_nil_2 _)).
    destruct current_gop as [|f current_gop].
    - rewrite app_nil_r in Hc. done.
    - split.
      + rewrite concat_app. cbn [concat]. by rewrite app_nil_r.
      + apply Forall_app. split; [done|]. by repeat constructor. }
  destruct Hcat as [Hcat Hne].
  assert (Hidx : gf_index <$> concat (analyze_gop_structure frames)
                 = seq 0 (length frames)).
  { rewrite Hcat, fmap_imap.
    rewrite (imap_ext _ (λ j _, j)) by done.
    rewrite <- (list_fmap_id (seq 0 (length frames))).
    apply (imap_seq_0 frames id). }
  split_and!; [done | done | | done | | done].
  - rewrite <- length_concat, Hcat. apply length_imap.
  - by apply (gop_first_indices_sorted _ 0 (length frames)).
Qed.

(** ** Binary64 facts used by the statistics

    The signs of the quotients the script computes, from the specification
    of the primitive floats. *)

Section Binary64.

#[local] Open Scope Z_scope.

Lemma digits2_pos_size (p : positive) : SpecFloat.digits2_pos p = Pos.size p.
Proof. induction p; cbn; congruence. Qed.

Lemma digits2_pos_iter_xO (p k : positive) :
  SpecFloat.digits2_pos (Pos.iter xO p k) = (SpecFloat.digits2_pos p + k)%positive.
Proof.
  apply (Pos.iter_ind _ xO p
           (fun k a => SpecFloat.digits2_pos a = (SpecFloat.digits2_pos p + k)%positive)).
  - cbn. lia.
  - intros q a IH. cbn. rewrite IH. lia.
Qed.

Lemma digits2_pos_bound (p : positive) :
  Zpos p < 2 ^ 53 -> Zpos (SpecFloat.digits2_pos p) <= 53.
Proof.
  intros Hp. rewrite digits2_pos_size.
  pose proof (Pos.size_le p) as Hle.
  assert (H : 2 ^ Zpos (Pos.size p) < 2 ^ 54).
  { rewrite <- Pos2Z.inj_pow. change (2 ^ 54) with (2 * 2 ^ 53). lia. }
  apply Z.pow_lt_mono_r_iff in H; lia.
Qed.

Lemma binary_round_aux_exact (sx : bool) (mz : positive) (ez : Z) :
  Zpos (SpecFloat.digits2_pos mz) = 53 -> -1074 <= ez <= 971 ->
  SpecFloat.binary_round_aux prec emax sx (Zpos mz) ez SpecFloat.loc_Exact
  = S754_finite sx mz ez.
Proof.
  intros Hmz He.
  assert (Hshift : SpecFloat.fexp prec emax (SpecFloat.Zdigits2 (Zpos mz) + ez) - ez = 0).
  { cbn [SpecFloat.Zdigits2]. rewrite Hmz.
    unfold SpecFloat.fexp, SpecFloat.emin, prec, emax. lia. }
  unfold SpecFloat.binary_round_aux, SpecFloat.shr_fexp.
  rewrite Hshift. cbn [SpecFloat.shr SpecFloat.shr_record_of_loc SpecFloat.shr_m
                       SpecFloat.loc_of_shr_record SpecFloat.round_nearest_even].
  rewrite Hshift. cbn [SpecFloat.shr SpecFloat.shr_record_of_loc SpecFloat.shr_m].
  replace (ez <=? emax - prec) with true; [reflexivity|].
  symmetry. apply Z.leb_le. unfold prec, emax. lia.
Qed.

Lemma binary_normalize_pos_finite (p : positive) :
  Zpos p < 2 ^ 53 ->
  exists m e, SpecFloat.binary_normalize prec emax (Zpos p) 0 false
              = S754_finite false m e.
Proof.
  intros Hp. pose proof (digits2_pos_bound p Hp) as Hd.
  unfold SpecFloat.binary_normalize, SpecFloat.binary_round.
  set (d := SpecFloat.digits2_pos p) in *.
  assert (Hfexp : SpecFloat.fexp prec emax (Zpos d + 0) = Zpos d - 53).
  { unfold SpecFloat.fexp, SpecFloat.emin, prec, emax. lia. }
  rewrite Hfexp.
  assert (Hal : exists mz, SpecFloat.shl_align p 0 (Zpos d - 53) = (mz, Zpos d - 53)
                      /\ Zpos (SpecFloat.digits2_pos mz) = 53).
  { unfold SpecFloat.shl_align. rewrite Z.sub_0_r.
    destruct (Zpos d - 53) as [|k|k] eqn:Ek; [|lia|].
    - exists p. split; [reflexivity|]. fold d. lia.
    - exists (Pos.iter xO p k). split; [reflexivity|].
      rewrite digits2_pos_iter_xO. fold d. lia. }
  destruct Hal as (mz & -> & Hmz).
  exists mz, (Zpos d - 53). apply binary_round_aux_exact; [assumption | lia].
Qed.

Lemma of_uint63_pos_finite (z : Z) :
  0 < z < 2 ^ 53 ->
  exists m e, Prim2SF (PrimFloat.of_uint63 (Uint63.of_Z z)) = S754_finite false m e.
Proof.
  intros Hz. rewrite FloatAxioms.of_uint63_spec, Uint63.of_Z_spec.
  rewrite Z.mod_small.
  - destruct z as [|p|p]; [lia | | lia]. apply binary_normalize_pos_finite. lia.
  - change Uint63.wB with (2 ^ 63). split; [lia|].
    apply Z.lt_trans with (2 ^ 53); [lia | reflexivity].
Qed.








(** A float above zero is not equal to zero. *)
Lemma float_pos_nonzero (d : float) :
  PrimFloat.ltb 0 d = true -> PrimFloat.eqb d 0 = false.
Proof.
  rewrite FloatAxioms.ltb_spec, FloatAxioms.eqb_spec. change (Prim2SF 0) with (S754_zero false).
  destruct (Prim2SF d) as [s|s| |s m e]; cbn; try discriminate; try reflexivity.
  - destruct s; cbn; [discriminate | reflexivity].
  - destruct s; cbn; [discriminate | reflexivity].
Qed.

End Binary64.

(** ** Bitrate and reference ratio *)

Lemma float_of_int_pos (z : Z) :
  (0 < z)%Z → float_of_int z = PrimFloat.of_uint63 (Uint63.of_Z z).
Proof.
  intros Hz. unfold float_of_int.
  by destruct (Z.ltb_spec z 0); [lia|].
Qed.


Lemma foldl_add_py_sum (a : Z) (l : list Z) :
  foldl Z.add a l = (a + py_sum l)%Z.
Proof.
  unfold py_sum. revert a. induction l as [|x l IH]; intros a; cbn [foldl].
  - lia.
  - rewrite IH, (IH (0 + x)%Z). lia.
Qed.

Lemma py_sum_cons (x : Z) (l : list Z) : py_sum (x :: l) = (x + py_sum l)%Z.
Proof. unfold py_sum at 1. cbn [foldl]. rewrite foldl_add_py_sum. lia. Qed.


Lemma len_cons_nonzero {A} (x : A) (l : list A) : (len (x :: l) =? 0)%Z = false.
Proof. apply Z.eqb_neq. unfold len. cbn [length]. lia. Qed.

(** The average bitrate computed from a total and a duration, as both
    [print_bitrate_analysis] and [analyze_video] do it. *)
Lemma avg_bitrate_branch (total_bits : Z) (duration : float) :
  (if PrimFloat.ltb 0 duration
   then PyFloat <$> int_div_float total_bits duration
   else Ok (PyInt 0))
  = Ok (if PrimFloat.ltb 0 duration
        then PyFloat (PrimFloat.div (float_of_int total_bits) duration)
        else PyInt 0).
Proof.
  destruct (PrimFloat.ltb 0 duration) eqn:E; [|done].
  unfold int_div_float. by rewrite (float_pos_nonzero duration E).
Qed.

(** What [print_bitrate_analysis] reports for a non-empty list. *)
Lemma print_bitrate_analysis_report (frame_sizes : list Z) (framerate : Z) :
  frame_sizes ≠ [] → framerate ≠ 0%Z →
  ∃ report,
    print_bitrate_analysis frame_sizes framerate = Ok (Some report) ∧
    br_duration report
    = PrimFloat.div (float_of_int (len frame_sizes)) (float_of_int framerate) ∧
    br_avg_bitrate report
    = if PrimFloat.ltb 0 (br_duration report)
      then PyFloat (PrimFloat.div
                      (float_of_int (py_sum ((λ size, size * 8)%Z <$> frame_sizes)))
                      (br_duration report))
      else PyInt 0.
Proof.
  intros Hne Hfr. destruct frame_sizes as [|size sizes]; [done|].
  unfold print_bitrate_analysis, int_truediv.
  rewrite (proj2 (Z.eqb_neq framerate 0) Hfr).
  cbn [mbind exn_bind]. rewrite avg_bitrate_branch.
  cbn [mbind exn_bind fmap list_fmap py_max py_min]. eauto.
Qed.

(** What [analyze_video] returns when there are frames and GOPs. *)
Lemma analyze_video_summary (frame_sizes : list Z) (gops : list (list GopFrame))
    (ref_frames : list FrameInfo) (framerate : Z) :
  frame_sizes ≠ [] → gops ≠ [] → framerate ≠ 0%Z →
  ∃ summary,
    analyze_video frame_sizes gops ref_frames framerate = Ok (Some summary) ∧
    avg_bitrate summary
    = (let duration :=
         PrimFloat.div (float_of_int (len frame_sizes)) (float_of_int framerate) in
       if PrimFloat.ltb 0 duration
       then PyFloat (PrimFloat.div (float_of_int (py_sum frame_sizes * 8)) duration)
       else PyInt 0) ∧
    ref_ratio summary
    = match ref_frames with
      | [] => PyInt 0
      | _ :: _ =>
          PyFloat (PrimFloat.mul
                     (PrimFloat.div
                        (float_of_int (count_if fi_is_reference ref_frames))
                        (float_of_int (len ref_frames)))
                     (float_of_int 100))
      end.
Proof.
  intros Hne Hgops Hfr.
  destruct frame_sizes as [|size sizes]; [done|].
  destruct gops as [|gop gops]; [done|].
  unfold analyze_video, int_truediv.
  rewrite (proj2 (Z.eqb_neq framerate 0) Hfr).
  cbn [mbind exn_bind]. rewrite avg_bitrate_branch.
  rewrite !len_cons_nonzero.
  cbn [mbind exn_bind fmap exn_fmap py_max Z.eqb].
  destruct ref_frames as [|f ref_frames].
  - cbn [mbind exn_bind]. eauto.
  - rewrite len_cons_nonzero. cbn [mbind exn_bind]. eauto.
Qed.



Lemma count_if_cons {A} (p : A → bool) (x : A) (l : list A) :
  count_if p (x :: l) = ((if p x then 1 else 0) + count_if p l)%Z.
Proof.
  unfold count_if. rewrite filter_cons.
  destruct (p x); case_decide; try done.
  by rewrite fmap_cons, py_sum_cons.
Qed.

(** Counting by a test only looks at the outcomes of the test. *)
Lemma count_if_flags {A} (p : A → bool) (l : list A) :
  count_if p l = count_if id (p <$> l).
Proof.
  induction l as [|x l IH]; [done|].
  by rewrite fmap_cons, !count_if_cons, IH.
Qed.

(** Every entry of the reference analysis is [classified], when the type
    recorded with each unit is the one in its header. *)
Lemma analyze_reference_frames_classified (nal_units : list NalUnit) :
  Forall header_type nal_units →
  Forall classified (frames (analyze_reference_frames nal_units)).
Proof.
  rewrite analyze_reference_frames_frames.
  induction 1 as [|nal rest Hh _ IH]; cbn [omap list_omap]; [constructor|].
  destruct (slice_entry nal) as [entry|] eqn:E; [|done].
  constructor; [|done].
  unfold slice_entry in E. repeat case_bool_decide; try done.
  destruct (parse_slice_header (nal_data nal)) as [info|] eqn:Ep; [|done].
  cbn in E. injection E as <-. unfold classified. cbn [fi_is_reference fi_nal_type].
  assert (Hlen : 2 ≤ length (nal_data nal)).
  { destruct (Nat.lt_ge_cases (length (nal_data nal)) 2) as [Hs|]; [|done].
    by rewrite (parse_slice_header_short _ Hs) in Ep. }
  rewrite (parse_slice_header_slice nal) in Ep by done.
  by injection Ep as <-.
Qed.

(** On classified entries, the IDR entries and the reference entries of type
    1 or 2 together are the reference entries: the two places that compute
    the ratio count the same units. *)
Lemma reference_counts_agree (frames : list FrameInfo) :
  Forall classified frames →
  (count_if (λ f, bool_decide (fi_nal_type f = 5%Z)) frames
   + count_if (λ f, bool_decide (fi_nal_type f ∈ [1; 2]%Z) && fi_is_reference f) frames)%Z
  = count_if fi_is_reference frames.
Proof.
  induction 1 as [|f frames Hf _ IH]; [done|].
  rewrite !count_if_cons, <- IH, Hf.
  repeat case_bool_decide; cbn [andb]; try lia;
    exfalso; set_unfold; intuition lia.
Qed.

(** C8: the reference ratio returned by [analyze_video] is the number of
    reference entries divided by the number of entries, times 100, and the
    integer 0 when there is none; [print_reference_analysis] prints the same
    ratio for the entries the reference analysis builds; and flags
    ref, ref, non-ref, ref give exactly 75.0. *)
Theorem reference_ratio :
  (∀ (frame_sizes : list Z) (gops : list (list GopFrame))
     (ref_frames : list FrameInfo) (framerate : Z),
     frame_sizes ≠ [] → gops ≠ [] → framerate ≠ 0%Z →
     exact_int (len ref_frames) →
     ∃ summary,
       analyze_video frame_sizes gops ref_frames framerate = Ok (Some summary) ∧
       ref_ratio summary
       = (if bool_decide (ref_frames = []) then PyInt 0
          else PyFloat (PrimFloat.mul
                          (PrimFloat.div
                             (float_of_int (count_if fi_is_reference ref_frames))
                             (float_of_int (len ref_frames)))
                          100)) ∧
       (fi_is_reference <$> ref_frames = [true; true; false; true] →
        ref_ratio summary = PyFloat 75)) ∧
  (∀ nal_units : list NalUnit,
     Forall header_type nal_units →
     frames (analyze_reference_frames nal_units) ≠ [] →
     exact_int (len (frames (analyze_reference_frames nal_units))) →
     ∃ report,
       print_reference_analysis (analyze_reference_frames nal_units)
       = Ok (Some report) ∧
       rr_ref_ratio report
       = PyFloat (PrimFloat.mul
                    (PrimFloat.div
                       (float_of_int (count_if fi_is_reference
                                        (frames (analyze_reference_frames nal_units))))
                       (float_of_int (len (frames (analyze_reference_frames nal_units)))))
                    100)).
Proof.
  split.
  - intros frame_sizes gops ref_frames framerate Hne Hgops Hfr _.
    destruct (analyze_video_summary frame_sizes gops ref_frames framerate)
      as (summary & Hrun & _ & Hr); [done.. |].
    exists summary. split; [done|]. split.
    + rewrite Hr. by destruct ref_frames.
    + intros Hflags. rewrite Hr.
      assert (Hlen : len ref_frames = 4%Z).
      { unfold len. by rewrite <- (length_fmap fi_is_reference), Hflags. }
      destruct ref_frames as [|f ref_frames]; [done|].
      by rewrite Hlen, count_if_flags, Hflags.
  - intros nal_units Hh Hne _.
    pose proof (analyze_reference_frames_classified nal_units Hh) as Hcl.
    unfold print_reference_analysis.
    destruct (frames (analyze_reference_frames nal_units)) as [|f fs] eqn:E; [done|].
    rewrite reference_counts_agree by done.
    unfold int_truediv. rewrite len_cons_nonzero. cbn [mbind exn_bind]. eauto.
Qed.

Lemma reference_ratio_three_of_four :
  ∃ summary,
    analyze_video [1000; 1000; 1000; 1000]%Z
      [[mkGopFrame 0 (JStr "I") (JStr "N/A")]]
      [mkFrameInfo 5 (Some "I"%string) true 900; mkFrameInfo 1 (Some "P/B"%string) true 40;
       mkFrameInfo 3 None false 30; mkFrameInfo 1 (Some "P/B"%string) true 30] 60
    = Ok (Some summary) ∧
    ref_ratio summary = PyFloat 75.
Proof.
  destruct (proj1 reference_ratio [1000; 1000; 1000; 1000]%Z
              [[mkGopFrame 0 (JStr "I") (JStr "N/A")]]
              [mkFrameInfo 5 (Some "I"%string) true 900; mkFrameInfo 1 (Some "P/B"%string) true 40;
               mkFrameInfo 3 None false 30; mkFrameInfo 1 (Some "P/B"%string) true 30] 60%Z)
    as (summary & Hrun & _ & H75);
    [done | done | done | by vm_compute |].
  exists summary. split; [exact Hrun | by apply H75].
Defined.

(** ** Frame-size statistics *)

Section FrameSizeStatisticsFacts.

Variable float_pow : float → float → float.
Variable float_sum : list float → float.

(** The standard deviation stored for a non-empty list of sizes is the
    population formula. *)
Lemma frame_stats_population (sizes : list Z) :
  sizes ≠ [] →
  frame_stats float_pow float_sum sizes
  = Ok (Some {| frame_avg := mean sizes;
                frame_std := population_std float_pow float_sum sizes;
                frame_count := len sizes |}).
Proof.
  intros Hne. destruct sizes as [|x sizes]; [done|].
  unfold frame_stats, std_dev, int_truediv, float_div_int.
  rewrite !len_cons_nonzero. reflexivity.
Qed.

Lemma frame_stats_ok (sizes : list Z) :
  ∃ stats, frame_stats float_pow float_sum sizes = Ok stats ∧
           (sizes ≠ [] →
            frame_std <$> stats = Some (population_std float_pow float_sum sizes)).
Proof.
  destruct sizes as [|x sizes].
  - by exists None.
  - eexists. split; [by apply frame_stats_population|done].
Qed.

Lemma analyze_quantization_and_motion_ok (i_sizes p_sizes : list Z) :
  ∃ stats,
    analyze_quantization_and_motion float_pow float_sum i_sizes p_sizes = Ok stats ∧
    frame_stats float_pow float_sum i_sizes = Ok (i_frame stats) ∧
    frame_stats float_pow float_sum p_sizes = Ok (p_frame stats).
Proof.
  unfold analyze_quantization_and_motion.
  destruct (frame_stats_ok i_sizes) as (i_stats & -> & _).
  destruct (frame_stats_ok p_sizes) as (p_stats & -> & _).
  cbn [mbind exn_bind].
  destruct (i_sizes ++ p_sizes) as [|x all_sizes] eqn:E; [by eexists|].
  unfold std_dev, int_truediv, float_div_int. rewrite !len_cons_nonzero.
  cbn [mbind exn_bind].
  destruct (PrimFloat.ltb 0 _) eqn:Epos; [|by eexists].
  unfold float_truediv. rewrite (float_pos_nonzero _ Epos). by eexists.
Qed.

End FrameSizeStatisticsFacts.

(** C9: in the detailed statistics, the standard deviation stored for the
    I-frame sizes, and the one stored for the P-frame sizes, is the population
    formula (divisor [n]) whenever the list is not empty, whatever the
    runtime's [**] and float [sum] compute; and with IEEE arithmetic the
    sizes 1 and 3 give 1.0, which is not what the sample formula (divisor
    [n - 1]) gives. *)
Theorem population_standard_deviation :
  (∀ (float_pow : float → float → float) (float_sum : list float → float)
     (i_sizes p_sizes : list Z),
     exact_sizes i_sizes → exact_sizes p_sizes →
     ∃ stats,
       analyze_quantization_and_motion float_pow float_sum i_sizes p_sizes
       = Ok stats ∧
       (i_sizes ≠ [] →
        frame_std <$> i_frame stats
        = Some (population_std float_pow float_sum i_sizes)) ∧
       (p_sizes ≠ [] →
        frame_std <$> p_frame stats
        = Some (population_std float_pow float_sum p_sizes))) ∧
  frame_stats ieee_pow ieee_sum [1; 3]%Z
  = Ok (Some {| frame_avg := 2; frame_std := 1; frame_count := 2 |}) ∧
  sample_std ieee_pow ieee_sum [1; 3]%Z ≠ 1%float.
Proof.
  split_and!.
  - intros float_pow float_sum i_sizes p_sizes _ _.
    destruct (analyze_quantization_and_motion_ok float_pow float_sum i_sizes p_sizes)
      as (stats & Hrun & Hi & Hp).
    exists stats. split; [done|]. split; intros Hne.
    + rewrite frame_stats_population in Hi by done. by injection Hi as <-.
    + rewrite frame_stats_population in Hp by done. by injection Hp as <-.
  - by vm_compute.
  - intros H. apply (f_equal Prim2SF) in H. vm_compute in H. discriminate.
Qed.

Lemma population_standard_deviation_sample :
  ∃ stats,
    analyze_quantization_and_motion ieee_pow ieee_sum [1; 3]%Z [2; 4; 9]%Z
    = Ok stats ∧
    frame_std <$> i_frame stats = Some 1%float ∧
    frame_std <$> p_frame stats
    = Some (population_std ieee_pow ieee_sum [2; 4; 9]%Z).
Proof.
  destruct (proj1 population_standard_deviation ieee_pow ieee_sum
              [1; 3]%Z [2; 4; 9]%Z)
    as (stats & Hrun & Hi & Hp).
  - split_and!; [by repeat constructor | by vm_compute | by vm_compute].
  - split_and!; [by repeat constructor | by vm_compute | by vm_compute].
  - exists stats. split_and!; [done | by apply Hi | by apply Hp].
Defined.

(** * Further properties of the program *)

(** ** One round of the scanner *)

(** With fewer than four bytes left, the outer loop stops. *)
Lemma scan_nal_units_end (buf : list byte) (fuel pos : nat) (acc : list NalUnit) :
  length buf < pos + 4 →
  scan_nal_units (S fuel) buf (mkBytesIO buf pos) acc = Some acc.
Proof.
  intros Hlen. cbn [scan_nal_units read tell getvalue].
  rewrite length_take, length_drop.
  by destruct (Nat.ltb_spec (4 `min` (length buf - pos)) 4); [|lia].
Qed.

(** Where no start code begins, the outer loop moves on by one byte. *)
Lemma scan_nal_units_skip (buf : list byte) (fuel pos : nat) (acc : list NalUnit) :
  pos + 4 ≤ length buf → is_start_code (drop pos buf) = false →
  scan_nal_units (S fuel) buf (mkBytesIO buf pos) acc
  = scan_nal_units fuel buf (mkBytesIO buf (pos + 1)) acc.
Proof.
  intros Hlen Hno. cbn [scan_nal_units read tell getvalue].
  rewrite length_take, length_drop.
  destruct (Nat.ltb_spec (4 `min` (length buf - pos)) 4); [lia|].
  unfold is_start_code in Hno. apply orb_false_elim in Hno as [H4 H3].
  rewrite take_take. change (3 `min` 4) with 3. by rewrite H4, H3.
Qed.

(** At a start code, the outer loop emits the payload up to the next start
    code, unless it is empty, and resumes there. *)
Lemma scan_nal_units_code (buf : list byte) (fuel pos c : nat) (code : list byte)
    (acc : list NalUnit) :
  (code = start_code3 ∨ code = start_code4) → length code = c →
  take c (drop pos buf) = code → pos + 4 ≤ length buf →
  scan_nal_units (S fuel) buf (mkBytesIO buf pos) acc
  = scan_nal_units fuel buf
      (mkBytesIO buf (pos + c + next_start_code (drop (pos + c) buf)))
      match take (next_start_code (drop (pos + c) buf)) (drop (pos + c) buf) with
      | [] => acc
      | b :: _ =>
          acc ++ [ {| nal_type := Z.land (byte_val b) 0x1F;
                      nal_data := take (next_start_code (drop (pos + c) buf))
                                       (drop (pos + c) buf);
                      nal_size := next_start_code (drop (pos + c) buf);
                      nal_offset := pos + c |} ]
      end.
Proof.
  intros Hcode Hc Htake Hlen. cbn [scan_nal_units read tell getvalue].
  rewrite length_take, length_drop.
  destruct (Nat.ltb_spec (4 `min` (length buf - pos)) 4); [lia|].
  replace (4 `min` (length buf - pos)) with 4 by lia.
  rewrite take_take. change (3 `min` 4) with 3.
  assert (Hfind : ∀ start, start ≤ length buf →
            find_next_start (S (length buf)) buf (mkBytesIO buf start)
            = Some (start + next_start_code (drop start buf)))
    by (intros; apply find_next_start_spec; lia).
  assert (Hsub : ∀ start k, start + k - start = k) by (intros; lia).
  destruct Hcode as [-> | ->]; cbn in Hc; subst c.
  - assert (H4 : take 4 (drop pos buf) ≠ start_code4).
    { intros E. apply (f_equal (take 3)) in E. rewrite take_take in E.
      change (3 `min` 4) with 3 in E. by rewrite Htake in E. }
    rewrite (bool_decide_eq_false_2 _ H4), (bool_decide_eq_true_2 _ Htake).
    unfold seek_back, seek. cbn [tell getvalue].
    replace (pos + 4 - 1) with (pos + 3) by lia.
    rewrite Hfind by lia. by rewrite Hsub.
  - rewrite (bool_decide_eq_true_2 _ Htake).
    unfold seek. cbn [tell getvalue].
    rewrite Hfind by lia. by rewrite Hsub.
Qed.

(** An induction principle for the scanner: a property of (position, units
    emitted from there on) that holds at the end of the buffer and is
    preserved backwards by the two kinds of round holds of every run. *)
Lemma scan_nal_units_ind (buf : list byte) (P : nat → list NalUnit → Prop) :
  (∀ pos, pos ≤ length buf → length buf < pos + 4 → P pos []) →
  (∀ pos new, pos + 4 ≤ length buf → is_start_code (drop pos buf) = false →
     P (pos + 1) new → P pos new) →
  (∀ pos code new,
     (code = start_code3 ∨ code = start_code4) →
     take (length code) (drop pos buf) = code → pos + 4 ≤ length buf →
     P (pos + length code + next_start_code (drop (pos + length code) buf)) new →
     P pos
       match take (next_start_code (drop (pos + length code) buf))
                  (drop (pos + length code) buf) with
       | [] => new
       | b :: _ =>
           {| nal_type := Z.land (byte_val b) 0x1F;
              nal_data := take (next_start_code (drop (pos + length code) buf))
                               (drop (pos + length code) buf);
              nal_size := next_start_code (drop (pos + length code) buf);
              nal_offset := pos + length code |} :: new
       end) →
  ∀ fuel pos acc, pos ≤ length buf → length buf < pos + fuel →
    ∃ new, scan_nal_units fuel buf (mkBytesIO buf pos) acc = Some (acc ++ new) ∧
           P pos new.
Proof.
  intros Hend Hskip Hcode.
  induction fuel as [|fuel IH]; intros pos acc Hpos Hfuel; [lia|].
  destruct (Nat.lt_ge_cases (length buf) (pos + 4)) as [Hshort | Hlong].
  { exists []. rewrite scan_nal_units_end, app_nil_r by done. auto. }
  destruct (is_start_code (drop pos buf)) eqn:Esc.
  - assert (∃ code, (code = start_code3 ∨ code = start_code4) ∧
                    take (length code) (drop pos buf) = code)
      as (code & Hc & Htake).
    { unfold is_start_code in Esc. apply orb_true_iff in Esc as [E | E];
        apply bool_decide_eq_true in E; eauto. }
    assert (Hc3 : 3 ≤ length code) by (destruct Hc; subst; cbn; lia).
    pose proof (next_start_code_le (drop (pos + length code) buf)) as Hk.
    rewrite length_drop in Hk.
    assert (Hin : pos + length code ≤ length buf).
    { apply (f_equal length) in Htake.
      rewrite length_take, length_drop in Htake. lia. }
    rewrite (scan_nal_units_code buf fuel pos (length code) code) by done.
    destruct (take _ (drop (pos + length code) buf)) as [|b t] eqn:Et.
    + destruct (IH (pos + length code
                    + next_start_code (drop (pos + length code) buf)) acc)
        as (new & -> & HP); [lia.. |].
      exists new. split; [done|].
      specialize (Hcode pos code new Hc Htake Hlong HP). by rewrite Et in Hcode.
    + destruct (IH (pos + length code
                    + next_start_code (drop (pos + length code) buf))
                  (acc ++ [ {| nal_type := Z.land (byte_val b) 0x1F;
                               nal_data := b :: t;
                               nal_size := next_start_code (drop (pos + length code) buf);
                               nal_offset := pos + length code |} ]))
        as (new & -> & HP); [lia.. |].
      eexists. rewrite <- app_assoc. split; [done|].
      specialize (Hcode pos code new Hc Htake Hlong HP). by rewrite Et in Hcode.
  - rewrite scan_nal_units_skip by done.
    destruct (IH (pos + 1) acc) as (new & -> & HP); [lia.. |].
    exists new. split; [done|]. by apply Hskip.
Qed.

(** The units of a whole buffer, with a property proved by that principle. *)
Lemma parse_nal_units_ind (buf : list byte) (P : nat → list NalUnit → Prop) :
  (∀ pos, pos ≤ length buf → length buf < pos + 4 → P pos []) →
  (∀ pos new, pos + 4 ≤ length buf → is_start_code (drop pos buf) = false →
     P (pos + 1) new → P pos new) →
  (∀ pos code new,
     (code = start_code3 ∨ code = start_code4) →
     take (length code) (drop pos buf) = code → pos + 4 ≤ length buf →
     P (pos + length code + next_start_code (drop (pos + length code) buf)) new →
     P pos
       match take (next_start_code (drop (pos + length code) buf))
                  (drop (pos + length code) buf) with
       | [] => new
       | b :: _ =>
           {| nal_type := Z.land (byte_val b) 0x1F;
              nal_data := take (next_start_code (drop (pos + length code) buf))
                               (drop (pos + length code) buf);
              nal_size := next_start_code (drop (pos + length code) buf);
              nal_offset := pos + length code |} :: new
       end) →
  ∃ nal_units, parse_nal_units buf = Some nal_units ∧ P 0 nal_units.
Proof.
  intros Hend Hskip Hcode.
  destruct (scan_nal_units_ind buf P Hend Hskip Hcode (S (length buf)) 0 [])
    as (new & Hrun & HP); [lia.. |].
  by exists new.
Qed.

(** ** Stream order *)

Lemma laid_out_weaken (buf_len pos pos' : nat) (nal_units : list NalUnit) :
  pos' ≤ pos → pos ≤ buf_len → laid_out buf_len pos nal_units →
  laid_out buf_len pos' nal_units.
Proof.
  intros Hle Hlen. destruct nal_units as [|n rest]; cbn [laid_out]; [lia|].
  intros (H1 & H2 & H3). split_and!; [lia | done | done].
Qed.

Lemma laid_out_bound (buf_len pos : nat) (nal_units : list NalUnit) :
  laid_out buf_len pos nal_units →
  pos + sum_list_with nal_size nal_units + 3 * length nal_units ≤ buf_len.
Proof.
  revert pos. induction nal_units as [|n rest IH]; intros pos; cbn [laid_out].
  - cbn. lia.
  - intros (H1 & H2 & H3). apply IH in H3. cbn [sum_list_with length]. lia.
Qed.

Lemma laid_out_sorted (buf_len pos : nat) (nal_units : list NalUnit) :
  laid_out buf_len pos nal_units →
  StronglySorted (λ a b, nal_offset a + nal_size a + 3 ≤ nal_offset b) nal_units ∧
  Forall (λ n, pos + 3 ≤ nal_offset n ∧ nal_offset n + nal_size n ≤ buf_len) nal_units.
Proof.
  revert pos. induction nal_units as [|n rest IH]; intros pos; cbn [laid_out].
  - intros _. split; constructor.
  - intros (H1 & H2 & H3). pose proof (laid_out_bound _ _ _ H3) as Hb.
    destruct (IH _ H3) as [Hs Ha]. split; constructor; try done.
    + eapply Forall_impl; [exact Ha|]. cbn. intros m Hm. lia.
    + lia.
    + eapply Forall_impl; [exact Ha|]. cbn. intros m Hm. lia.
Qed.

(** The units come in stream order and do not overlap: each one starts at
    least three bytes (a start code) after the end of the one before, the
    first one at offset 3 or later, and all of them, with three bytes of
    start code each, fit in the buffer. *)
Theorem scanner_stream_order (buf : list byte) :
  ∃ nal_units,
    parse_nal_units buf = Some nal_units ∧
    StronglySorted (λ a b, nal_offset a + nal_size a + 3 ≤ nal_offset b) nal_units ∧
    Forall (λ n, 3 ≤ nal_offset n ∧ nal_offset n + nal_size n ≤ length buf) nal_units ∧
    sum_list_with nal_size nal_units + 3 * length nal_units ≤ length buf.
Proof.
  destruct (parse_nal_units_ind buf (laid_out (length buf)))
    as (nal_units & Hrun & Hlay).
  - intros pos Hpos _. done.
  - intros pos new Hlen _ H. apply (laid_out_weaken _ (pos + 1)); [lia | lia | done].
  - intros pos code new Hc Htake Hlen H.
    assert (Hc3 : 3 ≤ length code) by (destruct Hc; subst; cbn; lia).
    pose proof (next_start_code_le (drop (pos + length code) buf)) as Hk.
    rewrite length_drop in Hk.
    assert (Hin : pos + length code ≤ length buf).
    { apply (f_equal length) in Htake.
      rewrite length_take, length_drop in Htake. lia. }
    destruct (take (next_start_code _) _) as [|b t] eqn:Et.
    + apply (laid_out_weaken _ (pos + length code
                                + next_start_code (drop (pos + length code) buf)));
        [lia | lia | done].
    + cbn [laid_out nal_offset nal_size]. split_and!; [lia | | done].
      apply (f_equal length) in Et. rewrite length_take, length_drop in Et.
      cbn in Et. lia.
  - exists nal_units. split; [done|].
    destruct (laid_out_sorted _ _ _ Hlay) as [Hs Ha].
    pose proof (laid_out_bound _ _ _ Hlay) as Hb.
    split_and!; [done | | lia].
    eapply Forall_impl; [exact Ha|]. cbn. intros n Hn. lia.
Qed.

(** ** Payloads hold no start code *)

Lemma take_next_start_code_clean (l : list byte) (i : nat) :
  is_start_code (drop i (take (next_start_code l) l)) = false.
Proof.
  destruct (is_start_code (drop i (take (next_start_code l) l))) eqn:E; [|done].
  pose proof (next_start_code_le l) as Hk.
  destruct (Nat.lt_ge_cases i (next_start_code l)) as [Hi | Hi].
  - rewrite <- (next_start_code_first l i Hi). symmetry.
    assert (Hsplit : drop i l
                     = drop i (take (next_start_code l) l) ++ drop (next_start_code l) l).
    { rewrite <- (take_drop (next_start_code l) l) at 1.
      apply drop_app_le. rewrite length_take. lia. }
    rewrite Hsplit.
    apply is_start_code_cases in E as [[l' E] | [l' E]]; rewrite E;
      apply is_start_code_cases; [left | right];
      eexists; by rewrite <- app_assoc.
  - rewrite drop_ge in E by (rewrite length_take; lia). done.
Qed.

(** No start code lies in the data of an emitted unit, and none begins in
    the buffer anywhere between the start and the end of a unit. *)
Theorem payloads_hold_no_start_code (buf : list byte) :
  ∃ nal_units,
    parse_nal_units buf = Some nal_units ∧
    Forall (λ n, (∀ i, is_start_code (drop i (nal_data n)) = false) ∧
                 (∀ i, i < nal_size n →
                       is_start_code (drop (nal_offset n + i) buf) = false))
           nal_units.
Proof.
  destruct (scan_nal_units_spec buf (S (length buf)) 0 [])
    as (nal_units & Hrun & Hall & _); [lia.. |].
  exists nal_units. split; [done|].
  eapply Forall_impl; [exact Hall|]. intros n [_ Hdata Hend _ _]. split.
  - intros i. rewrite Hdata, Hend. apply take_next_start_code_clean.
  - intros i Hi. rewrite <- drop_drop. apply next_start_code_first. lia.
Qed.

Lemma payloads_hold_no_start_code_sample :
  ∃ nal_units,
    parse_nal_units [x00; x00; x01; x65; x00; x00; x03; x01; x00; x00; x00; x01; x41]
    = Some nal_units ∧
    Forall (λ n, is_start_code (drop 1 (nal_data n)) = false) nal_units.
Proof.
  destruct (payloads_hold_no_start_code
              [x00; x00; x01; x65; x00; x00; x03; x01; x00; x00; x00; x01; x41])
    as (nal_units & Hrun & Hall).
  exists nal_units. split; [exact Hrun|].
  eapply Forall_impl; [exact Hall|]. intros n [H _]. apply H.
Defined.

(** ** Writing a stream and scanning it back *)

Lemma clean_payload_inv (payload : list byte) :
  clean_payload payload = true →
  payload ≠ [] ∧ last payload ≠ Some x00 ∧
  ∀ i, i < length payload → is_start_code (drop i payload) = false.
Proof.
  unfold clean_payload. intros H. apply andb_true_iff in H as [Hlast Hall].
  split_and!.
  - by intros ->.
  - intros E. rewrite E in Hlast. done.
  - intros i Hi. rewrite forallb_forall in Hall.
    specialize (Hall i). rewrite in_seq in Hall.
    apply negb_true_iff, Hall. lia.
Qed.

(** A string that ends in a non-zero byte and is no start code does not
    become one when bytes are appended. *)
Lemma is_start_code_app_false (q r : list byte) :
  q ≠ [] → last q ≠ Some x00 → is_start_code q = false →
  is_start_code (q ++ r) = false.
Proof.
  intros Hne Hlast Hq.
  destruct (is_start_code (q ++ r)) eqn:E; [exfalso|done].
  destruct q as [|a [|b [|c [|d q]]]]; [done | ..].
  - apply is_start_code_cases in E as [[l' E] | [l' E]];
      cbn in E; injection E as -> _; by apply Hlast.
  - apply is_start_code_cases in E as [[l' E] | [l' E]];
      cbn in E; injection E as -> -> _; by apply Hlast.
  - apply is_start_code_cases in E as [[l' E] | [l' E]];
      cbn in E; injection E as -> -> -> _; [by apply Hlast | done].
  - unfold is_start_code in E, Hq. cbn [app take] in E, Hq.
    rewrite !take_0 in *. congruence.
Qed.

Lemma clean_payload_no_code (payload rest : list byte) (i : nat) :
  clean_payload payload = true → i < length payload →
  is_start_code (drop i (payload ++ rest)) = false.
Proof.
  intros Hclean Hi. apply clean_payload_inv in Hclean as (Hne & Hlast & Hall).
  rewrite drop_app_le by lia.
  assert (Hd : drop i payload ≠ []).
  { intros E. apply (f_equal length) in E. rewrite length_drop in E. cbn in E. lia. }
  apply is_start_code_app_false; [done | | by apply Hall].
  rewrite <- (take_drop i payload) in Hlast.
  destruct (drop i payload) as [|x d] eqn:Ed; [done|].
  by rewrite last_app_cons in Hlast.
Qed.

Lemma next_start_code_app (payload rest : list byte) :
  (∀ i, i < length payload → is_start_code (drop i (payload ++ rest)) = false) →
  next_start_code (payload ++ rest) = length payload + next_start_code rest.
Proof.
  induction payload as [|a payload IH]; intros Hno; [done|].
  cbn [app length]. rewrite next_start_code_step by (apply (Hno 0); cbn; lia).
  rewrite IH; [lia|]. intros i Hi. apply (Hno (S i)). cbn. lia.
Qed.

Lemma annex_b_starts_with_code (units : list (list byte * list byte)) :
  Forall (λ u, (u.1 = start_code3 ∨ u.1 = start_code4) ∧ clean_payload u.2 = true)
         units →
  next_start_code (annex_b units) = 0.
Proof.
  destruct 1 as [|[code payload] units [Hc _] _]; [done|].
  cbn [annex_b]. apply next_start_code_here, is_start_code_cases.
  cbn in Hc. destruct Hc as [-> | ->]; [right | left]; by eexists.
Qed.

(** The scanner, started at the first start code of a written stream. *)
Lemma scan_annex_b (units : list (list byte * list byte)) :
  Forall (λ u, (u.1 = start_code3 ∨ u.1 = start_code4) ∧ clean_payload u.2 = true)
         units →
  ∀ (pre : list byte) (fuel : nat) (acc : list NalUnit),
    length (pre ++ annex_b units) < length pre + fuel →
    scan_nal_units fuel (pre ++ annex_b units)
      (mkBytesIO (pre ++ annex_b units) (length pre)) acc
    = Some (acc ++ units_at (length pre) units).
Proof.
  induction 1 as [|[code payload] units [Hc Hclean] Hrest IH];
    intros pre fuel acc Hfuel.
  - cbn [annex_b] in *. rewrite app_nil_r in *.
    destruct fuel as [|fuel]; [lia|].
    rewrite scan_nal_units_end by lia.
    cbn. by rewrite app_nil_r.
  - assert (Hfuel' := Hfuel). rewrite length_app in Hfuel'.
    destruct fuel as [|fuel]; [lia|]. clear Hfuel'. cbn [fst snd] in Hc, Hclean.
    pose proof (clean_payload_inv _ Hclean) as (Hne & _ & _).
    assert (Hc3 : 3 ≤ length code) by (destruct Hc; subst; cbn; lia).
    assert (Hp : 1 ≤ length payload) by (destruct payload; [done | cbn; lia]).
    cbn [annex_b] in *. rewrite !length_app in Hfuel.
    assert (Hdrop : drop (length pre) (pre ++ code ++ payload ++ annex_b units)
                    = code ++ payload ++ annex_b units) by apply drop_app_length.
    assert (Hdrop2 : drop (length pre + length code)
                       (pre ++ code ++ payload ++ annex_b units)
                     = payload ++ annex_b units).
    { rewrite <- drop_drop, Hdrop. apply drop_app_length. }
    rewrite (scan_nal_units_code _ fuel (length pre) (length code) code);
      [| done | done | by rewrite Hdrop, take_app_length
       | rewrite !length_app; lia].
    rewrite Hdrop2.
    rewrite next_start_code_app
      by (intros i Hi; by apply clean_payload_no_code).
    rewrite (annex_b_starts_with_code units Hrest), Nat.add_0_r, take_app_length.
    destruct payload as [|b t] eqn:Ep; [done|]. rewrite <- Ep in *.
    replace (pre ++ code ++ payload ++ annex_b units)
      with ((pre ++ code ++ payload) ++ annex_b units)
      by (by rewrite <- !app_assoc).
    replace (length pre + length code + length payload)
      with (length (pre ++ code ++ payload)) by (rewrite !length_app; lia).
    rewrite IH by (rewrite !length_app in *; lia).
    rewrite <- app_assoc. cbn [units_at app]. rewrite Ep.
    do 3 f_equal. rewrite !length_app. cbn [length]. f_equal. lia.
Qed.

(** The scanner, walking through bytes that hold no start code. *)
Lemma scan_junk (junk rest : list byte) (k fuel : nat) (acc : list NalUnit) :
  clean_payload junk = true → 4 ≤ length rest → k ≤ length junk →
  scan_nal_units (k + fuel) (junk ++ rest)
    (mkBytesIO (junk ++ rest) (length junk - k)) acc
  = scan_nal_units fuel (junk ++ rest) (mkBytesIO (junk ++ rest) (length junk)) acc.
Proof.
  intros Hclean Hrest. induction k as [|k IH]; intros Hk.
  - by rewrite Nat.sub_0_r.
  - cbn [Nat.add]. rewrite scan_nal_units_skip.
    + replace (length junk - S k + 1) with (length junk - k) by lia.
      apply IH. lia.
    + rewrite length_app. lia.
    + apply clean_payload_no_code; [done | lia].
Qed.

(** Round trip: writing payloads that hold no start code and do not end in
    a zero byte, each after a three- or four-byte start code, and scanning
    the result gives back exactly these payloads, with their types, sizes
    and offsets; bytes of the same kind before the first start code are
    skipped. *)
Theorem annex_b_round_trip (junk : list byte) (units : list (list byte * list byte)) :
  junk = [] ∨ clean_payload junk = true →
  Forall (λ u, (u.1 = start_code3 ∨ u.1 = start_code4) ∧ clean_payload u.2 = true)
         units →
  parse_nal_units (junk ++ annex_b units) = Some (units_at (length junk) units) ∧
  nal_data <$> units_at (length junk) units = snd <$> units.
Proof.
  intros Hjunk Hunits. split.
  - unfold parse_nal_units.
    destruct Hjunk as [-> | Hclean].
    { apply (scan_annex_b units Hunits [] _ []). cbn. lia. }
    destruct units as [|[code payload] units].
    + cbn [annex_b units_at]. rewrite app_nil_r.
      destruct (parse_nal_units_ind junk (λ _ new, new = []))
        as (nal_units & Hrun & ->); [done | done | | exact Hrun].
      intros pos code new Hc Htake Hlen _. exfalso.
      assert (Hpos : pos < length junk) by lia.
      pose proof (clean_payload_no_code junk [] pos Hclean Hpos) as Hno.
      rewrite app_nil_r in Hno.
      assert (is_start_code (drop pos junk) = true); [|congruence].
      apply is_start_code_cases.
      destruct Hc as [-> | ->]; [right | left]; eexists;
        rewrite <- Htake; symmetry; apply take_drop.
    + pose proof (Forall_inv Hunits) as [Hc Hp]. cbn [fst snd] in Hc, Hp.
      pose proof (clean_payload_inv _ Hp) as (Hne & _ & _).
      assert (Hlen : 4 ≤ length (annex_b ((code, payload) :: units))).
      { cbn [annex_b]. rewrite !length_app.
        destruct payload; [done|]. destruct Hc; subst; cbn; lia. }
      pose proof (scan_junk junk (annex_b ((code, payload) :: units))
                    (length junk) (S (length (annex_b ((code, payload) :: units))))
                    [] Hclean Hlen (Nat.le_refl _)) as Hskip.
      rewrite Nat.sub_diag in Hskip.
      replace (S (length (junk ++ annex_b ((code, payload) :: units))))
        with (length junk + S (length (annex_b ((code, payload) :: units))))
        by (rewrite length_app; lia).
      rewrite Hskip. apply (scan_annex_b _ Hunits junk _ []).
      rewrite length_app. lia.
  - clear Hjunk. generalize (length junk).
    induction Hunits as [|[code payload] units _ _ IH]; intros pos; [done|].
    cbn [units_at fmap list_fmap nal_data snd]. f_equal. apply IH.
Qed.

Lemma annex_b_round_trip_sample :
  parse_nal_units
    ([xff; x17] ++ annex_b [ (start_code4, [x67; x42; x00; x1f]);
                             (start_code3, [x65; x88; x00; x00; x03; x01]) ])
  = Some [ mkNalUnit 7 [x67; x42; x00; x1f] 4 6;
           mkNalUnit 5 [x65; x88; x00; x00; x03; x01] 6 13 ].
Proof.
  refine (proj1 (annex_b_round_trip [xff; x17]
                   [ (start_code4, [x67; x42; x00; x1f]);
                     (start_code3, [x65; x88; x00; x00; x03; x01]) ] _ _)).
  - right. reflexivity.
  - constructor; [split; [by right | reflexivity]|].
    constructor; [split; [by left | reflexivity]|].
    constructor.
Defined.

(** ** Classifier and reference analysis *)

(** [parse_slice_header] returns a dictionary exactly for data of at least
    two bytes whose first byte carries a slice type; every other type, and
    every shorter unit, gives [None]. *)
Theorem slice_header_parsed_iff (data : list byte) :
  is_Some (parse_slice_header data) ↔
  2 ≤ length data ∧
  ∃ b, head data = Some b ∧ Z.land (byte_val b) 0x1F ∈ [1; 2; 3; 4; 5]%Z.
Proof.
  unfold parse_slice_header.
  destruct (Nat.ltb_spec (length data) 2) as [Hs | Hl].
  - split; [by intros [? [=]] | lia].
  - destruct data as [|b rest]; [cbn in Hl; lia|].
    case_bool_decide as Hin; cbn [negb].
    + split; [|by eauto]. intros _. split; [done|]. by exists b.
    + split; [by intros [? [=]]|]. intros (_ & b' & [= <-] & Hin'). done.
Qed.

Lemma reference_loop_flags (nal_units : list NalUnit) (acc : RefData) :
  has_sps (reference_loop nal_units acc)
  = has_sps acc || bool_decide (Exists (λ n, nal_type n = 7%Z) nal_units) ∧
  has_pps (reference_loop nal_units acc)
  = has_pps acc || bool_decide (Exists (λ n, nal_type n = 8%Z) nal_units).
Proof.
  revert acc. induction nal_units as [|nal rest IH]; intros acc.
  - cbn [reference_loop]. rewrite !bool_decide_eq_false_2 by (by intros ?%Exists_nil).
    by rewrite !orb_false_r.
  - cbn [reference_loop]. destruct (IH
      (if bool_decide (nal_type nal = 7%Z)
       then mkRefData true (has_pps acc) (frames acc)
       else if bool_decide (nal_type nal = 8%Z)
            then mkRefData (has_sps acc) true (frames acc)
            else if bool_decide (nal_type nal ∈ [1; 2; 3; 4; 5]%Z)
                 then match parse_slice_header (nal_data nal) with
                      | Some slice_info =>
                          mkRefData (has_sps acc) (has_pps acc)
                            (frames acc ++
                               [ {| fi_nal_type := nal_type nal;
                                    fi_slice_type := si_slice_type slice_info;
                                    fi_is_reference := si_is_reference slice_info;
                                    fi_size := nal_size nal |} ])
                      | None => acc
                      end
                 else acc)) as [-> ->].
    rewrite !(bool_decide_ext _ _ (Exists_cons _ nal rest)).
    rewrite !bool_decide_or.
    repeat case_bool_decide; try lia;
      destruct (parse_slice_header (nal_data nal)); cbn [has_sps has_pps];
      by rewrite ?orb_true_r, ?orb_false_r, ?orb_true_l, ?orb_false_l,
                 ?orb_assoc.
Qed.

(** The flags of the reference analysis: an SPS is reported exactly when
    some unit has type 7, a PPS exactly when some unit has type 8. *)
Theorem parameter_set_flags (nal_units : list NalUnit) :
  (has_sps (analyze_reference_frames nal_units) = true
   ↔ ∃ n, n ∈ nal_units ∧ nal_type n = 7%Z) ∧
  (has_pps (analyze_reference_frames nal_units) = true
   ↔ ∃ n, n ∈ nal_units ∧ nal_type n = 8%Z).
Proof.
  unfold analyze_reference_frames.
  destruct (reference_loop_flags nal_units (mkRefData false false [])) as [-> ->].
  cbn [has_sps has_pps orb]. rewrite !bool_decide_eq_true, !Exists_exists. done.
Qed.

Lemma slice_entry_header (nal : NalUnit) :
  header_type nal →
  slice_entry nal = if decide (slice_unit nal) then Some (entry_of nal) else None.
Proof.
  intros Hh. unfold slice_entry, slice_unit.
  destruct (decide _) as [[Hin Hlen] | Hno].
  - rewrite (parse_slice_header_slice nal Hh Hlen Hin).
    rewrite (bool_decide_eq_true_2 _ Hin).
    assert (Hne : nal_type nal ≠ 7%Z ∧ nal_type nal ≠ 8%Z).
    { rewrite !elem_of_cons, elem_of_nil in Hin. lia. }
    destruct Hne as [H7 H8].
    by rewrite (bool_decide_eq_false_2 _ H7), (bool_decide_eq_false_2 _ H8).
  - repeat case_bool_decide; try done.
    rewrite parse_slice_header_short; [done|].
    destruct (Nat.lt_ge_cases (length (nal_data nal)) 2); [done|].
    exfalso. by apply Hno.
Qed.

Lemma omap_slice_entry (nal_units : list NalUnit) :
  Forall header_type nal_units →
  omap slice_entry nal_units = entry_of <$> filter slice_unit nal_units.
Proof.
  induction 1 as [|nal rest Hh _ IH]; [done|].
  cbn [omap list_omap]. rewrite filter_cons, IH, (slice_entry_header nal Hh).
  by destruct (decide (slice_unit nal)).
Qed.

(** When the type recorded with each unit is the one in its header, the
    entries of the reference analysis are, in stream order, those of the
    units with a slice type and at least two bytes of data: one entry each,
    carrying the unit's type and size. *)
Theorem reference_entries (nal_units : list NalUnit) :
  Forall header_type nal_units →
  frames (analyze_reference_frames nal_units)
  = entry_of <$> filter slice_unit nal_units.
Proof.
  intros Hheaders. rewrite analyze_reference_frames_frames.
  by apply omap_slice_entry.
Qed.

Lemma reference_entries_sample :
  frames (analyze_reference_frames
            [ mkNalUnit 7 [x67; x42] 2 4; mkNalUnit 5 [x65; x88] 2 9;
              mkNalUnit 1 [x41] 1 14; mkNalUnit 3 [x43; x00; x10] 3 18 ])
  = [ mkFrameInfo 5 (Some "I"%string) true 2; mkFrameInfo 3 None false 3 ].
Proof.
  refine (reference_entries
            [ mkNalUnit 7 [x67; x42] 2 4; mkNalUnit 5 [x65; x88] 2 9;
              mkNalUnit 1 [x41] 1 14; mkNalUnit 3 [x43; x00; x10] 3 18 ] _).
  repeat (constructor; [eexists; split; reflexivity|]). constructor.
Defined.

(** Scanner and classifier together: on every buffer the reference analysis
    of the scanned units has one entry per unit with a slice type and at
    least two bytes; every entry has a slice type, a size of at least 2, and
    a reference flag that is true exactly for the types 1, 2 and 5. *)
Theorem scanned_reference_entries (buf : list byte) :
  ∃ nal_units,
    parse_nal_units buf = Some nal_units ∧
    frames (analyze_reference_frames nal_units)
    = entry_of <$> filter slice_unit nal_units ∧
    Forall (λ f, fi_nal_type f ∈ [1; 2; 3; 4; 5]%Z ∧ 2 ≤ fi_size f ∧
                 (fi_is_reference f = true ↔ fi_nal_type f ∈ [1; 2; 5]%Z))
           (frames (analyze_reference_frames nal_units)).
Proof.
  destruct (scan_nal_units_spec buf (S (length buf)) 0 [])
    as (nal_units & Hrun & Hall & _); [lia.. |].
  exists nal_units. split; [done|].
  assert (Hh : Forall header_type nal_units).
  { eapply Forall_impl; [exact Hall|]. by intros n [_ _ _ _ Ht]. }
  rewrite analyze_reference_frames_frames, (omap_slice_entry nal_units Hh).
  split; [done|].
  apply Forall_fmap, Forall_forall. intros n Hn.
  apply list_elem_of_filter in Hn as [[Hin Hlen] Hn].
  rewrite Forall_forall in Hall. destruct (Hall n Hn) as [_ _ _ [_ Hsize] _].
  cbn. split_and!; [done | lia |]. by rewrite bool_decide_eq_true.
Qed.

Lemma count_if_total {A} (p q r : A → bool) (l : list A) :
  Forall (λ x, ((if p x then 1 else 0) + (if q x then 1 else 0)
                + (if r x then 1 else 0) = 1)%Z) l →
  (count_if p l + count_if q l + count_if r l = len l)%Z.
Proof.
  induction 1 as [|x l Hx _ IH]; [done|].
  rewrite !count_if_cons. unfold len in *. cbn [length]. lia.
Qed.

Lemma count_if_range {A} (p : A → bool) (l : list A) :
  (0 ≤ count_if p l ≤ len l)%Z.
Proof.
  induction l as [|x l IH]; [done|].
  rewrite count_if_cons. unfold len in *. cbn [length]. destruct (p x); lia.
Qed.

(** [print_reference_analysis] never raises; it reports nothing exactly for
    an empty frame list; and on entries whose reference flag follows from
    their type, the three counts it prints (IDR, non-IDR reference,
    non-reference) add up to the number of entries. *)
Theorem reference_report_counts (ref_data : RefData) :
  ∃ result,
    print_reference_analysis ref_data = Ok result ∧
    (result = None ↔ frames ref_data = []) ∧
    ∀ report, result = Some report →
      rr_total report = len (frames ref_data) ∧
      (Forall classified (frames ref_data) →
       (rr_idr_count report + rr_non_idr_ref_count report
        + rr_non_ref_count report = rr_total report)%Z).
Proof.
  unfold print_reference_analysis.
  destruct (frames ref_data) as [|f fs] eqn:E.
  { exists None. split_and!; [done | done | by intros ? [=]]. }
  unfold int_truediv. rewrite len_cons_nonzero. cbn [mbind exn_bind].
  eexists. split; [done|]. split; [by split|].
  intros report [= <-]. cbn [rr_total rr_idr_count rr_non_idr_ref_count
                            rr_non_ref_count]. split; [done|].
  intros Hcl. apply count_if_total.
  eapply Forall_impl; [exact Hcl|]. intros g Hg. unfold classified in Hg.
  rewrite Hg. repeat case_bool_decide; cbn [andb negb]; try lia;
    exfalso; set_unfold; intuition lia.
Qed.

Lemma reference_report_counts_sample :
  ∃ result,
    print_reference_analysis
      (analyze_reference_frames
         [ mkNalUnit 5 [x65; x88] 2 9; mkNalUnit 1 [x41; x9a] 2 14;
           mkNalUnit 4 [x44; x00; x10] 3 19 ]) = Ok result ∧
    ∀ report, result = Some report →
      (rr_idr_count report + rr_non_idr_ref_count report
       + rr_non_ref_count report = 3)%Z.
Proof.
  destruct (reference_report_counts
              (analyze_reference_frames
                 [ mkNalUnit 5 [x65; x88] 2 9; mkNalUnit 1 [x41; x9a] 2 14;
                   mkNalUnit 4 [x44; x00; x10] 3 19 ]))
    as (result & Hrun & _ & Hcount).
  exists result. split; [exact Hrun|]. intros report Hr.
  destruct (Hcount report Hr) as [Htotal Hsum]. rewrite Hsum, Htotal.
  - reflexivity.
  - repeat (constructor; [reflexivity|]). constructor.
Defined.

(** ** GOP boundaries *)

Lemma gop_frame_type (i : nat) (frame : gmap string JsonValue) :
  gf_type (gop_frame i frame) = JStr "I" ↔ is_i_frame frame = true.
Proof. unfold is_i_frame. by rewrite bool_decide_eq_true. Qed.

Lemma no_i_after_first_snoc (gop : list GopFrame) (f : GopFrame) :
  no_i_after_first gop → gf_type f ≠ JStr "I" → no_i_after_first (gop ++ [f]).
Proof.
  unfold no_i_after_first. destruct gop as [|g gop]; cbn [app tail]; [constructor|].
  intros Hg Hf. apply Forall_app. split; [done|]. by constructor.
Qed.

Lemma starts_with_i_app (gop more : list GopFrame) :
  starts_with_i gop → starts_with_i (gop ++ more).
Proof. intros (f & Hf & Ht). exists f. by destruct gop. Qed.

(** The loop keeps the boundaries: closed GOPs have no I frame after their
    first frame, all but the first closed GOP begin with one, and so does the
    open GOP once a GOP has been closed. *)
Lemma gop_loop_boundaries (frames : list (gmap string JsonValue)) (i : nat)
    (gops : list (list GopFrame)) (current_gop : list GopFrame) :
  Forall no_i_after_first gops → Forall starts_with_i (tail gops) →
  no_i_after_first current_gop →
  (gops ≠ [] → starts_with_i current_gop) →
  (current_gop = [] → gops = []) →
  let r := gop_loop frames i gops current_gop in
  Forall no_i_after_first r.1 ∧ Forall starts_with_i (tail r.1) ∧
  no_i_after_first r.2 ∧ (r.1 ≠ [] → starts_with_i r.2) ∧ (r.2 = [] → r.1 = []).
Proof.
  revert i gops current_gop.
  induction frames as [|frame frames IH]; intros i gops cur Hno Hst Hcur Hopen Hemp;
    cbn [gop_loop]; [done|].
  fold (is_i_frame frame). destruct (is_i_frame frame) eqn:Ei.
  - apply IH.
    + destruct cur; [done|]. apply Forall_app. split; [done|]. by constructor.
    + destruct cur as [|c cur]; [done|]. destruct gops as [|g gops]; [constructor|].
      cbn [app tail]. apply Forall_app. split; [done|]. constructor; [|done].
      by apply Hopen.
    + constructor.
    + intros _. eexists. split; [done|]. by apply gop_frame_type.
    + done.
  - apply IH; [done | done | | | ].
    + apply no_i_after_first_snoc; [done|]. rewrite gop_frame_type. congruence.
    + intros Hg. by apply starts_with_i_app, Hopen.
    + by destruct cur.
Qed.

Lemma gop_loop_all_start_with_i (frames : list (gmap string JsonValue)) (i : nat)
    (gops : list (list GopFrame)) (current_gop : list GopFrame) :
  Forall starts_with_i gops → starts_with_i current_gop →
  let r := gop_loop frames i gops current_gop in
  Forall starts_with_i r.1 ∧ starts_with_i r.2.
Proof.
  revert i gops current_gop.
  induction frames as [|frame frames IH]; intros i gops cur Hst Hcur;
    cbn [gop_loop]; [done|].
  fold (is_i_frame frame). destruct (is_i_frame frame) eqn:Ei.
  - apply IH.
    + destruct cur; [done|]. apply Forall_app. split; [done|]. by constructor.
    + eexists. split; [done|]. by apply gop_frame_type.
  - apply IH; [done|]. by apply starts_with_i_app.
Qed.

(** GOP boundaries are exactly the I frames: no GOP holds an I frame after
    its first frame; every GOP but the first begins with an I frame; and when
    the first input frame is an I frame, every GOP does. *)
Theorem gop_boundaries (frames : list (gmap string JsonValue)) :
  Forall no_i_after_first (analyze_gop_structure frames) ∧
  Forall starts_with_i (tail (analyze_gop_structure frames)) ∧
  (∀ frame rest, frames = frame :: rest → is_i_frame frame = true →
     Forall starts_with_i (analyze_gop_structure frames)).
Proof.
  split_and!.
  - unfold analyze_gop_structure.
    destruct (gop_loop_boundaries frames 0 [] []) as (H1 & _ & H3 & _);
      [by constructor.. | done | done |].
    destruct (gop_loop frames 0 [] []) as [gops cur]. cbn [fst snd] in *.
    destruct cur; [done|]. apply Forall_app. split; [done|]. by constructor.
  - unfold analyze_gop_structure.
    destruct (gop_loop_boundaries frames 0 [] []) as (_ & H2 & _ & H4 & _);
      [by constructor.. | done | done |].
    destruct (gop_loop frames 0 [] []) as [gops cur]. cbn [fst snd] in *.
    destruct cur as [|c cur]; [done|]. destruct gops as [|g gops]; [constructor|].
    cbn [app tail]. apply Forall_app. split; [done|]. constructor; [|done].
    by apply H4.
  - intros frame rest -> Hi. unfold analyze_gop_structure. cbn [gop_loop].
    fold (is_i_frame frame). rewrite Hi.
    destruct (gop_loop_all_start_with_i rest 1 [] [gop_frame 0 frame]) as [H1 H2].
    { constructor. }
    { eexists. split; [done|]. by apply gop_frame_type. }
    destruct (gop_loop rest 1 [] [gop_frame 0 frame]) as [gops cur].
    cbn [fst snd] in *. destruct cur; [done|].
    apply Forall_app. split; [done|]. by constructor.
Qed.

Lemma gop_boundaries_sample :
  Forall starts_with_i
    (analyze_gop_structure
       [ {[ "pict_type"%string := JStr "I" ]}; {[ "pict_type"%string := JStr "P" ]};
         {[ "pict_type"%string := JStr "I" ]}; ∅ ]).
Proof.
  apply (proj2 (proj2 (gop_boundaries _)) {[ "pict_type"%string := JStr "I" ]}
           [ {[ "pict_type"%string := JStr "P" ]};
             {[ "pict_type"%string := JStr "I" ]}; ∅ ]); reflexivity.
Defined.

(** ** Counting GOPs and I frames *)

Lemma gop_loop_count (frames : list (gmap string JsonValue)) (i : nat)
    (gops : list (list GopFrame)) (current_gop : list GopFrame) :
  current_gop ≠ [] →
  (gop_loop frames i gops current_gop).2 ≠ [] ∧
  length (gop_loop frames i gops current_gop).1
  = length gops + length (filter (λ f, is_i_frame f = true) frames).
Proof.
  revert i gops current_gop.
  induction frames as [|frame frames IH]; intros i gops cur Hcur; cbn [gop_loop].
  - cbn. split; [done | lia].
  - fold (is_i_frame frame). rewrite filter_cons.
    destruct (is_i_frame frame) eqn:Ei.
    + destruct (IH (S i) (match cur with [] => gops | _ :: _ => gops ++ [cur] end)
                  [gop_frame i frame]) as [H1 ->]; [done|].
      split; [done|]. destruct cur; [done|].
      rewrite decide_True by done. rewrite length_app. cbn [length]. lia.
    + destruct (IH (S i) gops (cur ++ [gop_frame i frame])) as [H1 ->];
        [by destruct cur|].
      split; [done|]. by rewrite decide_False by done.
Qed.

(** The number of GOPs is the number of I frames, plus one when the stream
    does not open with an I frame. *)
Theorem gop_count (frames : list (gmap string JsonValue)) :
  length (analyze_gop_structure frames)
  = length (filter (λ f, is_i_frame f = true) frames)
    + match frames with
      | [] => 0
      | frame :: _ => if is_i_frame frame then 0 else 1
      end.
Proof.
  destruct frames as [|frame frames]; [done|].
  unfold analyze_gop_structure. cbn [gop_loop]. fold (is_i_frame frame).
  rewrite filter_cons. destruct (is_i_frame frame) eqn:Ei.
  - destruct (gop_loop_count frames 1 [] [gop_frame 0 frame]) as [H1 H2]; [done|].
    destruct (gop_loop frames 1 [] [gop_frame 0 frame]) as [gops cur].
    cbn [fst snd] in *. destruct cur; [done|].
    rewrite decide_True by done. rewrite length_app, H2. cbn [length]. lia.
  - destruct (gop_loop_count frames 1 [] ([] ++ [gop_frame 0 frame])) as [H1 H2];
      [done|].
    destruct (gop_loop frames 1 [] ([] ++ [gop_frame 0 frame])) as [gops cur].
    cbn [fst snd] in *. destruct cur; [done|].
    rewrite decide_False by done. rewrite length_app, H2. cbn [length]. lia.
Qed.

Lemma analyze_gop_structure_concat (frames : list (gmap string JsonValue)) :
  concat (analyze_gop_structure frames) = imap gop_frame frames.
Proof.
  unfold analyze_gop_structure.
  destruct (gop_loop_spec frames 0 [] []) as [Hc _].
  destruct (gop_loop frames 0 [] []) as [gops cur].
  cbn [fst snd concat app] in Hc. destruct cur as [|f cur].
  - by rewrite app_nil_r in Hc.
  - rewrite concat_app. cbn [concat]. by rewrite app_nil_r.
Qed.

Lemma py_sum_len_concat {A} (ls : list (list A)) :
  py_sum (len <$> ls) = len (concat ls).
Proof.
  induction ls as [|l ls IH]; [done|].
  rewrite fmap_cons, py_sum_cons, IH. unfold len. cbn [concat].
  rewrite length_app. lia.
Qed.

Lemma count_if_length {A} (p : A → bool) (l : list A) :
  count_if p l = len (filter (λ x, p x = true) l).
Proof.
  induction l as [|x l IH]; [done|].
  rewrite count_if_cons, IH, filter_cons. unfold len.
  destruct (p x); [rewrite decide_True by done | rewrite decide_False by done];
    cbn [length]; lia.
Qed.

Lemma count_if_imap {A B} (p : B → bool) (q : A → bool) (f : nat → A → B)
    (l : list A) :
  (∀ j x, p (f j x) = q x) → count_if p (imap f l) = count_if q l.
Proof.
  revert f. induction l as [|x l IH]; intros f Hf; [done|].
  rewrite imap_cons, !count_if_cons, Hf, (IH (f ∘ S)); [done|].
  intros j y. apply Hf.
Qed.

(** All fields of the summary [analyze_video] returns. *)
Lemma analyze_video_fields (frame_sizes : list Z) (gops : list (list GopFrame))
    (ref_frames : list FrameInfo) (framerate : Z) :
  frame_sizes ≠ [] → gops ≠ [] → framerate ≠ 0%Z →
  ∃ summary max_size,
    analyze_video frame_sizes gops ref_frames framerate = Ok (Some summary) ∧
    py_max frame_sizes = Ok max_size ∧
    avg_gop_size summary
    = PyFloat (PrimFloat.div (float_of_int (py_sum (len <$> gops)))
                             (float_of_int (len gops))) ∧
    peak_frame_mbps summary
    = PyFloat (PrimFloat.div (float_of_int (max_size * 8 * framerate))
                             (float_of_int 1000000)) ∧
    i_frame_count summary
    = count_if (λ frame, bool_decide (gf_type frame = JStr "I")) (concat gops).
Proof.
  intros Hne Hgops Hfr.
  destruct frame_sizes as [|size sizes]; [done|].
  destruct gops as [|gop gops]; [done|].
  unfold analyze_video, int_truediv.
  rewrite (proj2 (Z.eqb_neq framerate 0) Hfr).
  cbn [mbind exn_bind]. rewrite avg_bitrate_branch.
  rewrite !len_cons_nonzero.
  cbn [mbind exn_bind fmap exn_fmap py_max Z.eqb].
  destruct ref_frames as [|f ref_frames].
  - cbn [mbind exn_bind]. eexists _, _. split_and!; reflexivity.
  - rewrite len_cons_nonzero. cbn [mbind exn_bind].
    eexists _, _. split_and!; reflexivity.
Qed.

(** Segmenter and summary together: for the GOPs of a non-empty frame list,
    with sizes and a frame rate that convert to floats exactly, the summary
    counts exactly the I frames of the input, and its average GOP size is the
    number of frames divided by the number of GOPs. *)
Theorem summary_of_segmented_frames (frames : list (gmap string JsonValue))
    (frame_sizes : list Z) (ref_frames : list FrameInfo) (framerate : Z) :
  frames ≠ [] → frame_sizes ≠ [] → framerate ≠ 0%Z → exact_int (len frames) →
  exact_sizes frame_sizes → exact_int framerate →
  ∃ summary,
    analyze_video frame_sizes (analyze_gop_structure frames) ref_frames framerate
    = Ok (Some summary) ∧
    i_frame_count summary = len (filter (λ f, is_i_frame f = true) frames) ∧
    avg_gop_size summary
    = PyFloat (PrimFloat.div (float_of_int (len frames))
                             (float_of_int (len (analyze_gop_structure frames)))).
Proof.
  intros Hframes Hsizes Hfr _ _ _.
  assert (Hgops : analyze_gop_structure frames ≠ []).
  { intros E. pose proof (analyze_gop_structure_concat frames) as Hc.
    rewrite E in Hc. destruct frames; [done|]. by rewrite imap_cons in Hc. }
  destruct (analyze_video_fields frame_sizes (analyze_gop_structure frames)
              ref_frames framerate Hsizes Hgops Hfr)
    as (summary & m & Hrun & _ & Havg & _ & Hcount).
  exists summary. split_and!; [done | |].
  - rewrite Hcount, analyze_gop_structure_concat.
    rewrite (count_if_imap _ is_i_frame) by done. apply count_if_length.
  - rewrite Havg, py_sum_len_concat, analyze_gop_structure_concat.
    unfold len. by rewrite length_imap.
Qed.

Lemma summary_of_segmented_frames_sample :
  ∃ summary,
    analyze_video [1200; 300; 250; 1100; 280]%Z
      (analyze_gop_structure
         ((λ t, {[ "pict_type"%string := JStr t ]}) <$> ["I"; "P"; "P"; "I"; "P"]%string))
      [] 60 = Ok (Some summary) ∧
    i_frame_count summary = 2%Z ∧
    avg_gop_size summary = PyFloat 2.5.
Proof.
  destruct (summary_of_segmented_frames
              ((λ t, {[ "pict_type"%string := JStr t ]})
                 <$> ["I"; "P"; "P"; "I"; "P"]%string)
              [1200; 300; 250; 1100; 280]%Z [] 60%Z)
    as (summary & Hrun & Hi & Havg);
    [done | done | done | by vm_compute | | by vm_compute |].
  { split_and!; [|by vm_compute..]. repeat constructor; by vm_compute. }
  exists summary. split_and!; [exact Hrun | | ].
  - rewrite Hi. by vm_compute.
  - rewrite Havg. by vm_compute.
Defined.

(** ** Outcomes of the bitrate computations *)

(** How [print_bitrate_analysis] ends, for sizes and a frame rate that
    convert to floats exactly: it reports nothing for no sizes, raises
    [ZeroDivisionError] for sizes and a zero frame rate, and reports
    otherwise, also when the frame rate is negative. *)
Theorem bitrate_outcomes (frame_sizes : list Z) (framerate : Z) :
  exact_sizes frame_sizes → exact_int framerate →
  match print_bitrate_analysis frame_sizes framerate with
  | Ok None => frame_sizes = []
  | Ok (Some report) =>
      frame_sizes ≠ [] ∧ framerate ≠ 0%Z ∧
      br_total_frames report = len frame_sizes
  | Raise e => e = ZeroDivisionError ∧ frame_sizes ≠ [] ∧ framerate = 0%Z
  end.
Proof.
  intros _ _. destruct frame_sizes as [|size sizes]; [done|].
  destruct (decide (framerate = 0%Z)) as [-> | Hfr]; [done|].
  unfold print_bitrate_analysis, int_truediv.
  rewrite (proj2 (Z.eqb_neq framerate 0) Hfr).
  cbn [mbind exn_bind]. rewrite avg_bitrate_branch.
  cbn [mbind exn_bind fmap list_fmap py_max py_min]. done.
Qed.

Lemma bitrate_outcomes_sample :
  ∃ report, print_bitrate_analysis [1200; 300; 250]%Z (-30) = Ok (Some report) ∧
            br_total_frames report = 3%Z.
Proof.
  pose proof (bitrate_outcomes [1200; 300; 250]%Z (-30)%Z) as H.
  destruct (print_bitrate_analysis [1200; 300; 250]%Z (-30)%Z) as [[report|]|e] eqn:E.
  - exists report. split; [reflexivity|]. apply H; [|by vm_compute].
    split_and!; [|by vm_compute..]. repeat constructor; by vm_compute.
  - by vm_compute in E.
  - by vm_compute in E.
Defined.

(** ** Peak and minimum frame bitrate *)

Lemma foldl_max_spec (x : Z) (xs : list Z) :
  foldl Z.max x xs ∈ x :: xs ∧ Forall (λ y, (y ≤ foldl Z.max x xs)%Z) (x :: xs).
Proof.
  revert x. induction xs as [|y xs IH]; intros x; cbn [foldl].
  - split; [apply list_elem_of_here | by repeat constructor].
  - destruct (IH (Z.max x y)) as [Hin Hall].
    apply Forall_cons in Hall as [Hm Hall]. split.
    + apply elem_of_cons in Hin as [-> | Hin];
        [|by do 2 apply list_elem_of_further].
      destruct (Z.max_spec x y) as [[_ ->] | [_ ->]];
        [apply list_elem_of_further | ]; apply list_elem_of_here.
    + repeat constructor; [lia | lia | done].
Qed.

Lemma foldl_min_spec (x : Z) (xs : list Z) :
  foldl Z.min x xs ∈ x :: xs ∧ Forall (λ y, (foldl Z.min x xs ≤ y)%Z) (x :: xs).
Proof.
  revert x. induction xs as [|y xs IH]; intros x; cbn [foldl].
  - split; [apply list_elem_of_here | by repeat constructor].
  - destruct (IH (Z.min x y)) as [Hin Hall].
    apply Forall_cons in Hall as [Hm Hall]. split.
    + apply elem_of_cons in Hin as [-> | Hin];
        [|by do 2 apply list_elem_of_further].
      destruct (Z.min_spec x y) as [[_ ->] | [_ ->]];
        [ | apply list_elem_of_further]; apply list_elem_of_here.
    + repeat constructor; [lia | lia | done].
Qed.

(** For a positive frame rate, and sizes and a frame rate that convert to
    floats exactly, the peak and minimum frame bitrates printed by
    [print_bitrate_analysis] are the equivalents [size * 8 * framerate] of
    the largest and of the smallest frame: both are attained by a frame, and
    every frame lies between them. *)
Theorem frame_bitrate_bounds (frame_sizes : list Z) (framerate : Z) :
  frame_sizes ≠ [] → (0 < framerate)%Z →
  exact_sizes frame_sizes → exact_int framerate →
  ∃ report,
    print_bitrate_analysis frame_sizes framerate = Ok (Some report) ∧
    (∃ size, size ∈ frame_sizes ∧
             br_max_frame_bitrate report = (size * 8 * framerate)%Z) ∧
    (∃ size, size ∈ frame_sizes ∧
             br_min_frame_bitrate report = (size * 8 * framerate)%Z) ∧
    Forall (λ size, (br_min_frame_bitrate report ≤ size * 8 * framerate
                     ≤ br_max_frame_bitrate report)%Z) frame_sizes.
Proof.
  intros Hne Hfr _ _. destruct frame_sizes as [|size sizes]; [done|].
  unfold print_bitrate_analysis, int_truediv.
  rewrite (proj2 (Z.eqb_neq framerate 0)) by lia.
  cbn [mbind exn_bind]. rewrite avg_bitrate_branch.
  cbn [mbind exn_bind fmap list_fmap py_max py_min].
  eexists. split; [done|].
  cbn [br_max_frame_bitrate br_min_frame_bitrate].
  set (bits := (λ s : Z, (s * 8)%Z)).
  change (list_fmap Z Z bits sizes) with (bits <$> sizes).
  destruct (foldl_max_spec (bits size) (bits <$> sizes)) as [Hmax_in Hmax].
  destruct (foldl_min_spec (bits size) (bits <$> sizes)) as [Hmin_in Hmin].
  change (bits size :: (bits <$> sizes)) with (bits <$> size :: sizes) in *.
  apply list_elem_of_fmap in Hmax_in as (smax & Emax & Hmax_in).
  apply list_elem_of_fmap in Hmin_in as (smin & Emin & Hmin_in).
  rewrite Forall_fmap in Hmax, Hmin.
  change (size * 8)%Z with (bits size).
  split_and!.
  - exists smax. split; [done|]. by rewrite Emax.
  - exists smin. split; [done|]. by rewrite Emin.
  - rewrite Forall_forall in Hmax, Hmin. apply Forall_forall. intros s Hs.
    specialize (Hmax s Hs). specialize (Hmin s Hs). cbn in Hmax, Hmin.
    subst bits. cbn beta in *. nia.
Qed.

Lemma frame_bitrate_bounds_sample :
  ∃ report,
    print_bitrate_analysis [1200; 300; 250]%Z 60 = Ok (Some report) ∧
    Forall (λ size, (br_min_frame_bitrate report ≤ size * 8 * 60
                     ≤ br_max_frame_bitrate report)%Z) [1200; 300; 250]%Z.
Proof.
  destruct (frame_bitrate_bounds [1200; 300; 250]%Z 60%Z)
    as (report & Hrun & _ & _ & Hall); [done | done | | by vm_compute |].
  { split_and!; [|by vm_compute..]. repeat constructor; by vm_compute. }
  exists report. split; [exact Hrun | exact Hall].
Defined.

(** ** GOP report *)

Lemma print_gop_analysis_stats (gop : list GopFrame) (gops : list (list GopFrame))
    (framerate : Z) :
  framerate ≠ 0%Z →
  print_gop_analysis (gop :: gops) framerate
  = Ok {| gr_total := len (gop :: gops);
          gr_sizes :=
            Some {| gs_min := foldl Z.min (len gop) (len <$> gops);
                    gs_max := foldl Z.max (len gop) (len <$> gops);
                    gs_avg := PrimFloat.div
                                (float_of_int (py_sum (len <$> gop :: gops)))
                                (float_of_int (len (len <$> gop :: gops)));
                    gs_min_duration :=
                      PrimFloat.div
                        (float_of_int (foldl Z.min (len gop) (len <$> gops)))
                        (float_of_int framerate);
                    gs_max_duration :=
                      PrimFloat.div
                        (float_of_int (foldl Z.max (len gop) (len <$> gops)))
                        (float_of_int framerate) |} |}.
Proof.
  intros Hfr. unfold print_gop_analysis, int_truediv.
  rewrite (proj2 (Z.eqb_neq framerate 0) Hfr).
  cbn [fmap list_fmap py_min py_max mbind exn_bind].
  rewrite len_cons_nonzero. reflexivity.
Qed.

(** How [print_gop_analysis] ends on GOPs whose frame types are strings:
    with no GOPs it reports a total of 0 and no size statistics, whatever the
    frame rate; with GOPs and a zero frame rate it raises
    [ZeroDivisionError]; otherwise it reports the number of GOPs with size
    statistics. *)
Theorem gop_report_outcome (gops : list (list GopFrame)) (framerate : Z) :
  Forall str_typed gops →
  match print_gop_analysis gops framerate with
  | Ok report =>
      gr_total report = len gops ∧
      (gr_sizes report = None ↔ gops = []) ∧
      (gops ≠ [] → framerate ≠ 0%Z)
  | Raise e => e = ZeroDivisionError ∧ gops ≠ [] ∧ framerate = 0%Z
  end.
Proof.
  intros _. destruct gops as [|gop gops]; [done|].
  destruct (decide (framerate = 0%Z)) as [-> | Hfr].
  - unfold print_gop_analysis, int_truediv.
    cbn [fmap list_fmap py_min py_max mbind exn_bind].
    by rewrite len_cons_nonzero.
  - rewrite print_gop_analysis_stats by done. cbn. split_and!; done.
Qed.

Lemma gop_report_outcome_sample :
  print_gop_analysis
    [[mkGopFrame 0 (JStr "I") (JInt 0); mkGopFrame 1 (JStr "P") (JInt 512)]] 0
  = Raise ZeroDivisionError.
Proof.
  assert (Hstr : Forall str_typed
                   [[mkGopFrame 0 (JStr "I") (JInt 0);
                     mkGopFrame 1 (JStr "P") (JInt 512)]])
    by (repeat constructor; by eexists).
  pose proof (gop_report_outcome _ 0%Z Hstr) as H.
  destruct (print_gop_analysis _ _) as [report|e].
  - destruct H as (_ & _ & Hfr). by destruct Hfr.
  - by destruct H as (-> & _).
Defined.

Lemma analyze_gop_structure_nonempty (frames : list (gmap string JsonValue)) :
  Forall (λ gop, gop ≠ []) (analyze_gop_structure frames).
Proof.
  unfold analyze_gop_structure.
  destruct (gop_loop_spec frames 0 [] []) as [_ Hne].
  destruct (gop_loop frames 0 [] []) as [gops cur].
  cbn [fst snd] in Hne. specialize (Hne (Forall_nil_2 _)).
  destruct cur; [done|]. apply Forall_app. split; [done|]. by repeat constructor.
Qed.

Lemma len_le_concat {A} (l : list A) (ls : list (list A)) :
  l ∈ ls → (len l ≤ len (concat ls))%Z.
Proof.
  intros Hin. induction Hin as [l ls | l l' ls _ IH]; unfold len in *;
    cbn [concat]; rewrite length_app; lia.
Qed.

(** Segmenter and GOP report together: for a non-empty list of frames whose
    picture types are strings and a non-zero frame rate, the report has size
    statistics, and the smallest and largest GOP sizes it prints satisfy
    [1 <= min <= max <= number of frames]. *)
Theorem gop_report_of_segmented_frames (frames : list (gmap string JsonValue))
    (framerate : Z) :
  Forall str_pict_type frames → frames ≠ [] → framerate ≠ 0%Z →
  ∃ report stats,
    print_gop_analysis (analyze_gop_structure frames) framerate = Ok report ∧
    gr_sizes report = Some stats ∧
    gr_total report = len (analyze_gop_structure frames) ∧
    (1 ≤ gs_min stats ≤ gs_max stats)%Z ∧ (gs_max stats ≤ len frames)%Z.
Proof.
  intros _ Hframes Hfr.
  pose proof (analyze_gop_structure_nonempty frames) as Hne.
  pose proof (analyze_gop_structure_concat frames) as Hcat.
  destruct (analyze_gop_structure frames) as [|gop gops] eqn:E.
  { destruct frames; [done|]. by rewrite imap_cons in Hcat. }
  rewrite print_gop_analysis_stats by done.
  eexists _, _. split_and!; [done | done | done | | | ];
    cbn [gs_min gs_max].
  - destruct (foldl_min_spec (len gop) (len <$> gops)) as [Hin _].
    change (len gop :: (len <$> gops)) with (len <$> gop :: gops) in Hin.
    apply list_elem_of_fmap in Hin as (g & -> & Hg).
    rewrite Forall_forall in Hne. specialize (Hne g Hg).
    unfold len. destruct g; [done | cbn [length]; lia].
  - destruct (foldl_max_spec (len gop) (len <$> gops)) as [Hin _].
    destruct (foldl_min_spec (len gop) (len <$> gops)) as [_ Hall].
    rewrite Forall_forall in Hall. by apply Hall.
  - destruct (foldl_max_spec (len gop) (len <$> gops)) as [Hin _].
    change (len gop :: (len <$> gops)) with (len <$> gop :: gops) in Hin.
    apply list_elem_of_fmap in Hin as (g & -> & Hg).
    apply len_le_concat in Hg. rewrite Hcat in Hg.
    unfold len in *. by rewrite length_imap in Hg.
Qed.

Lemma gop_report_of_segmented_frames_sample :
  ∃ report stats,
    print_gop_analysis
      (analyze_gop_structure
         ((λ t, {[ "pict_type"%string := JStr t ]}) <$> ["I"; "P"; "P"; "I"; "P"]%string))
      60 = Ok report ∧
    gr_sizes report = Some stats ∧
    (1 ≤ gs_min stats ≤ gs_max stats)%Z ∧ (gs_max stats ≤ 5)%Z.
Proof.
  destruct (gop_report_of_segmented_frames
              ((λ t, {[ "pict_type"%string := JStr t ]})
                 <$> ["I"; "P"; "P"; "I"; "P"]%string) 60%Z)
    as (report & stats & Hrun & Hs & _ & Hmin & Hmax); [| done | done |].
  { repeat constructor; intros v Hv; vm_compute in Hv;
      injection Hv as <-; by eexists. }
  exists report, stats.
  split; [exact Hrun|]. split; [exact Hs|]. split; [exact Hmin | exact Hmax].
Defined.

(** ** The listing of the largest frames *)

Lemma insert_desc_perm (x : nat * Z) (l : list (nat * Z)) :
  insert_desc x l ≡ₚ x :: l.
Proof.
  induction l as [|y l IH]; cbn [insert_desc]; [done|].
  destruct (y.2 <=? x.2)%Z; [done|]. rewrite IH. apply Permutation_swap.
Qed.

Lemma sorted_desc_perm (l : list (nat * Z)) : sorted_desc l ≡ₚ l.
Proof.
  induction l as [|x l IH]; [done|].
  unfold sorted_desc in *. cbn [foldr]. by rewrite insert_desc_perm, IH.
Qed.

Lemma insert_desc_sorted (x : nat * Z) (l : list (nat * Z)) :
  StronglySorted listed_before l → Forall (λ y, x.1 < y.1) l →
  StronglySorted listed_before (insert_desc x l).
Proof.
  induction 1 as [|y l Hs IH Hy]; intros Hidx; cbn [insert_desc].
  - by repeat constructor.
  - apply Forall_cons in Hidx as [Hxy Hidx].
    destruct (Z.leb_spec y.2 x.2) as [Hle | Hgt].
    + constructor; [by constructor|]. constructor.
      * unfold listed_before. lia.
      * rewrite Forall_forall in Hy, Hidx. apply Forall_forall. intros z Hz.
        specialize (Hy z Hz). specialize (Hidx z Hz). unfold listed_before in *. lia.
    + constructor; [by apply IH|].
      rewrite insert_desc_perm. constructor; [|done].
      unfold listed_before. lia.
Qed.

Lemma sorted_desc_sorted (l : list (nat * Z)) :
  StronglySorted (λ a b, a.1 < b.1) l →
  StronglySorted listed_before (sorted_desc l).
Proof.
  induction 1 as [|x l Hs IH Hx]; [constructor|].
  unfold sorted_desc in *. cbn [foldr]. apply insert_desc_sorted; [done|].
  by rewrite sorted_desc_perm.
Qed.

Lemma enumerate_from_sorted {A} (k : nat) (l : list A) :
  StronglySorted (λ a b : nat * A, a.1 < b.1) (imap (λ i x, (k + i, x)) l) ∧
  Forall (λ a : nat * A, k ≤ a.1) (imap (λ i x, (k + i, x)) l).
Proof.
  revert k. induction l as [|x l IH]; intros k; [split; constructor|].
  rewrite imap_cons.
  rewrite (imap_ext _ (λ i y, (S k + i, y))) by (intros; cbn; f_equal; lia).
  destruct (IH (S k)) as [Hs Hall]. split; constructor; cbn [fst]; try done.
  - eapply Forall_impl; [exact Hall|]. cbn. intros a Ha. lia.
  - lia.
  - eapply Forall_impl; [exact Hall|]. cbn. intros a Ha. lia.
Qed.

Lemma elem_of_enumerate {A} (l : list A) (i : nat) (x : A) :
  (i, x) ∈ enumerate l ↔ l !! i = Some x.
Proof.
  unfold enumerate. rewrite elem_of_lookup_imap. split.
  - by intros (j & y & [= -> ->] & H).
  - intros H. by exists i, x.
Qed.

(** The listing of the largest frames holds five entries, or all frames when
    there are fewer; every entry is a frame index with the size of that
    frame; the entries come by decreasing size, frames of equal size by
    increasing index; and no frame left out is larger than a listed one. *)
Theorem largest_frames_listing (frame_sizes : list Z) :
  length (largest_frames frame_sizes) = 5 `min` length frame_sizes ∧
  Forall (λ e, frame_sizes !! e.1 = Some e.2) (largest_frames frame_sizes) ∧
  StronglySorted listed_before (largest_frames frame_sizes) ∧
  (∀ i size, frame_sizes !! i = Some size →
     (i, size) ∉ largest_frames frame_sizes →
     Forall (λ e, (size ≤ e.2)%Z) (largest_frames frame_sizes)).
Proof.
  unfold largest_frames.
  pose proof (sorted_desc_perm (enumerate frame_sizes)) as Hperm.
  assert (Hsorted : StronglySorted listed_before (sorted_desc (enumerate frame_sizes))).
  { apply sorted_desc_sorted. apply (enumerate_from_sorted 0 frame_sizes). }
  set (all := sorted_desc (enumerate frame_sizes)) in *.
  split_and!.
  - rewrite length_take, Hperm. unfold enumerate. by rewrite length_imap.
  - apply Forall_forall. intros [i s] Hin. cbn [fst snd].
    apply elem_of_enumerate. rewrite <- Hperm.
    apply elem_of_take in Hin as (j & Hj & _). by eapply list_elem_of_lookup_2.
  - rewrite <- (take_drop 5 all) in Hsorted. by apply StronglySorted_app_1_l in Hsorted.
  - intros i size Hi Hout. apply Forall_forall. intros e He.
    apply elem_of_enumerate in Hi. rewrite <- Hperm in Hi.
    rewrite <- (take_drop 5 all) in Hi, Hsorted.
    apply elem_of_app in Hi as [Hi | Hi]; [done|].
    pose proof (StronglySorted_app_1_elem_of _ _ _ _ _ Hsorted He Hi) as Hlt.
    unfold listed_before in Hlt. cbn [fst snd] in Hlt. lia.
Qed.

Lemma largest_frames_listing_sample :
  Forall (λ e, (300 ≤ e.2)%Z) (largest_frames [900; 250; 300; 900; 1200; 310; 305]%Z).
Proof.
  apply (proj2 (proj2 (proj2 (largest_frames_listing
           [900; 250; 300; 900; 1200; 310; 305]%Z))) 2 300%Z).
  - reflexivity.
  - vm_compute. intros Hin. repeat (apply elem_of_cons in Hin as [[=] | Hin]).
    by apply elem_of_nil in Hin.
Defined.

(** ** Packet sizes *)

Lemma py_sum_app (l k : list Z) : py_sum (l ++ k) = (py_sum l + py_sum k)%Z.
Proof.
  induction l as [|x l IH]; cbn [app].
  - change (py_sum []) with 0%Z. lia.
  - rewrite !py_sum_cons, IH. lia.
Qed.

Section PacketSizesFacts.

Variable int_of_str : string → exn Z.

Lemma bitrate_loop_ok (packets : list (gmap string JsonValue))
    (acc sizes : list Z) (total t : Z) :
  bitrate_loop int_of_str packets acc total = Ok (sizes, t) →
  ∃ new, sizes = acc ++ new ∧ t = (total + py_sum new)%Z ∧
         Forall2 (λ p s, py_int int_of_str (size_field p) = Ok s)
                 (filter is_video packets) new.
Proof.
  revert acc total. induction packets as [|p packets IH]; intros acc total;
    cbn [bitrate_loop].
  - intros [= <- <-]. exists []. rewrite app_nil_r.
    split_and!; [done | change (py_sum []) with 0%Z; lia | constructor].
  - rewrite filter_cons. case_bool_decide as Hv.
    + rewrite decide_True by done.
      destruct (py_int int_of_str (size_field p)) as [size|e] eqn:Es; [|done].
      cbn [mbind exn_bind]. intros Hrun.
      destruct (IH _ _ Hrun) as (new & -> & -> & Hall).
      exists (size :: new). rewrite <- app_assoc, py_sum_cons.
      split_and!; [done | lia | by constructor].
    + rewrite decide_False by done. apply IH.
Qed.

Lemma bitrate_loop_filter (packets : list (gmap string JsonValue))
    (acc : list Z) (total : Z) :
  bitrate_loop int_of_str (filter is_video packets) acc total
  = bitrate_loop int_of_str packets acc total.
Proof.
  revert acc total. induction packets as [|p packets IH]; intros acc total; [done|].
  rewrite filter_cons. cbn [bitrate_loop]. case_bool_decide as Hv.
  - rewrite decide_True by done. cbn [bitrate_loop].
    rewrite (bool_decide_eq_true_2 _ Hv).
    destruct (py_int int_of_str (size_field p)); cbn [mbind exn_bind]; [apply IH | done].
  - rewrite decide_False by done. apply IH.
Qed.

Lemma bitrate_loop_convert (packets : list (gmap string JsonValue))
    (acc : list Z) (total : Z) :
  Forall (λ p, is_video p → ∃ z, py_int int_of_str (size_field p) = Ok z) packets →
  ∃ r, bitrate_loop int_of_str packets acc total = Ok r.
Proof.
  intros Hall. revert acc total.
  induction Hall as [|p packets Hp _ IH]; intros acc total; cbn [bitrate_loop].
  - by eexists.
  - case_bool_decide as Hv; [|apply IH].
    destruct (Hp Hv) as (z & ->). cbn [mbind exn_bind]. apply IH.
Qed.

End PacketSizesFacts.

(** [analyze_bitrate] looks at the video packets only; it returns exactly
    when the size of every video packet converts to an integer; and then the
    sizes it returns are those integers, in packet order, a missing size
    counting as 0, and the total it returns is their sum. *)
Theorem packet_sizes (int_of_str : string → exn Z)
    (packets : list (gmap string JsonValue)) :
  analyze_bitrate int_of_str (filter is_video packets)
  = analyze_bitrate int_of_str packets ∧
  ((∃ r, analyze_bitrate int_of_str packets = Ok r) ↔
   Forall (λ p, ∃ z, py_int int_of_str (size_field p) = Ok z)
          (filter is_video packets)) ∧
  (∀ sizes total,
     analyze_bitrate int_of_str packets = Ok (sizes, total) →
     total = py_sum sizes ∧
     Forall2 (λ p size,
                py_int int_of_str (size_field p) = Ok size ∧
                (p !! "size"%string = None → size = 0%Z))
             (filter is_video packets) sizes).
Proof.
  assert (Hok : ∀ sizes total,
            analyze_bitrate int_of_str packets = Ok (sizes, total) →
            total = py_sum sizes ∧
            Forall2 (λ p size, py_int int_of_str (size_field p) = Ok size)
                    (filter is_video packets) sizes).
  { intros sizes total Hrun. apply bitrate_loop_ok in Hrun as (new & -> & -> & Hall).
    cbn [app]. split; [lia | done]. }
  split_and!.
  - apply bitrate_loop_filter.
  - split.
    + intros [[sizes total] Hrun]. destruct (Hok _ _ Hrun) as [_ Hall].
      clear Hrun Hok. revert Hall. generalize (filter is_video packets).
      intros l Hall. induction Hall; constructor; eauto.
    + intros Hall. apply bitrate_loop_convert.
      apply Forall_forall. intros p Hp Hv. rewrite Forall_forall in Hall.
      apply Hall. by apply list_elem_of_filter.
  - intros sizes total Hrun. destruct (Hok _ _ Hrun) as [Ht Hall].
    split; [done|]. eapply Forall2_impl; [exact Hall|].
    intros p size Hs. split; [done|]. intros Hnone.
    unfold size_field in Hs. rewrite Hnone in Hs. cbn in Hs. congruence.
Qed.

Lemma packet_sizes_sample :
  analyze_bitrate (λ _, Raise ValueError)
    [ {[ "codec_type"%string := JStr "video"; "size"%string := JInt 1200 ]};
      {[ "codec_type"%string := JStr "audio"; "size"%string := JStr "n/a" ]};
      {[ "codec_type"%string := JStr "video" ]} ]
  = Ok ([1200; 0]%Z, 1200%Z) ∧
  1200%Z = py_sum [1200; 0]%Z.
Proof.
  split; [by vm_compute|].
  apply (proj2 (proj2 (packet_sizes (λ _, Raise ValueError)
           [ {[ "codec_type"%string := JStr "video"; "size"%string := JInt 1200 ]};
             {[ "codec_type"%string := JStr "audio"; "size"%string := JStr "n/a" ]};
             {[ "codec_type"%string := JStr "video" ]} ])) [1200; 0]%Z 1200%Z).
  by vm_compute.
Defined.

(** ** Parsing the header trace *)

Section TraceParsingFacts.

Variable strip : string → string.
Variable split_ws : string → list string.

(** Outside a section, the SPS loop changes nothing until a line names the
    section. *)
Lemma sps_loop_no_section (lines : list string) (sps_params : gmap string string) :
  Forall (λ line, contains "Sequence Parameter Set" line = false) lines →
  sps_loop strip split_ws lines false sps_params = sps_params.
Proof.
  induction 1 as [|line lines Hline _ IH]; cbn [sps_loop]; [done|].
  rewrite Hline. by destruct (_ || _).
Qed.

Lemma pps_loop_no_section (lines : list string) (pps_params : gmap string string) :
  Forall (λ line, contains "Picture Parameter Set" line = false) lines →
  pps_loop strip split_ws lines false pps_params = pps_params.
Proof.
  induction 1 as [|line lines Hline _ IH]; cbn [pps_loop]; [done|].
  rewrite Hline. by destruct (_ || _).
Qed.

(** The slice-header loop never holds more than five dictionaries, holds
    five only while the current one is empty, and holds no empty one. *)
Lemma slice_headers_loop_bound (lines : list string)
    (slice_headers : list (gmap string string))
    (current_slice : gmap string string) (in_slice : bool) :
  length slice_headers ≤ 5 →
  (length slice_headers = 5 → current_slice = ∅) →
  Forall (λ header, header ≠ ∅) slice_headers →
  length (slice_headers_loop strip split_ws lines slice_headers current_slice
            in_slice).1 ≤ 5 ∧
  Forall (λ header, header ≠ ∅)
         (slice_headers_loop strip split_ws lines slice_headers current_slice
            in_slice).1.
Proof.
  revert slice_headers current_slice in_slice.
  induction lines as [|line lines IH]; intros hs cur in_slice Hlen Hfull Hne;
    cbn [slice_headers_loop]; [done|].
  destruct (contains "Slice Header" line).
  { case_bool_decide as Hcur.
    - assert (Hroom : length hs ≠ 5) by (intros E; by apply Hcur, Hfull).
      apply IH; [rewrite length_app; cbn; lia | done |].
      apply Forall_app. split; [done|]. by constructor.
    - apply IH; [done.. ]. }
  destruct ((_ || _) && _) eqn:Eend.
  { apply andb_true_iff in Eend as [_ Hcur]. apply bool_decide_eq_true in Hcur.
    assert (Hroom : length hs ≠ 5) by (intros E; by apply Hcur, Hfull).
    apply IH; [rewrite length_app; cbn; lia | done |].
    apply Forall_app. split; [done|]. by constructor. }
  clear Eend. destruct (bool_decide (5 ≤ length hs)) eqn:Hfive; [done|].
  apply bool_decide_eq_false in Hfive. apply IH; [done | lia | done].
Qed.






End TraceParsingFacts.

(** [parse_slice_headers] returns at most five dictionaries, none of them
    empty, whatever the trace and whatever [strip] and [split] take for
    white space. *)
Theorem slice_headers_at_most_five (strip : string → string)
    (split_ws : string → list string) (trace_output : string) :
  length (parse_slice_headers strip split_ws trace_output) ≤ 5 ∧
  Forall (λ header, header ≠ ∅) (parse_slice_headers strip split_ws trace_output).
Proof.
  unfold parse_slice_headers.
  destruct (slice_headers_loop_bound strip split_ws
              (split_on "010"%char trace_output) [] ∅ false) as [Hlen Hne];
    [cbn; lia | done | constructor |].
  destruct (slice_headers_loop _ _ _ _ _ _) as [hs cur]. cbn [fst] in *.
  destruct (bool_decide (cur ≠ ∅) && bool_decide (length hs < 5)) eqn:E; [|done].
  apply andb_true_iff in E as [Hcur Hlt].
  apply bool_decide_eq_true in Hcur, Hlt. split.
  - rewrite length_app. cbn. lia.
  - apply Forall_app. split; [done|]. by constructor.
Qed.



(** A trace in which no line names the SPS section gives no SPS parameters,
    and one in which no line names the PPS section gives no PPS parameters,
    whatever else the lines hold. *)
Theorem missing_section_gives_no_parameters (strip : string → string)
    (split_ws : string → list string) (trace_output : string) :
  (Forall (λ line, contains "Sequence Parameter Set" line = false)
          (split_on "010"%char trace_output) →
   parse_sps_parameters strip split_ws trace_output = ∅) ∧
  (Forall (λ line, contains "Picture Parameter Set" line = false)
          (split_on "010"%char trace_output) →
   parse_pps_parameters strip split_ws trace_output = ∅).
Proof.
  split; intros Hno.
  - by apply sps_loop_no_section.
  - by apply pps_loop_no_section.
Qed.

Lemma missing_section_gives_no_parameters_sample :
  parse_sps_parameters id (λ s, [s])
    ("Slice Header" +:+ String "010" "slice_type = 7") = ∅.
Proof.
  refine (proj1 (missing_section_gives_no_parameters id (λ s, [s]) _) _).
  vm_compute. repeat constructor.
Defined.

(** ** A run of [analyze_video] *)

Lemma print_reference_analysis_ok (ref_data : RefData) :
  ∃ result, print_reference_analysis ref_data = Ok result.
Proof.
  unfold print_reference_analysis. destruct (frames ref_data) as [|f fs]; [by eexists|].
  unfold int_truediv. rewrite len_cons_nonzero. cbn [mbind exn_bind]. by eexists.
Qed.

Lemma print_gop_analysis_zero (gop : list GopFrame) (gops : list (list GopFrame)) :
  print_gop_analysis (gop :: gops) 0 = Raise ZeroDivisionError.
Proof.
  unfold print_gop_analysis, int_truediv.
  cbn [fmap list_fmap py_min py_max mbind exn_bind].
  by rewrite len_cons_nonzero.
Qed.

Lemma print_bitrate_analysis_ok (frame_sizes : list Z) (framerate : Z) :
  framerate ≠ 0%Z → ∃ result, print_bitrate_analysis frame_sizes framerate = Ok result.
Proof.
  intros Hfr. destruct frame_sizes as [|size sizes]; [by eexists|].
  destruct (print_bitrate_analysis_report (size :: sizes) framerate)
    as (report & -> & _); [done.. |]. by eexists.
Qed.

Lemma analyze_gop_structure_cons (frame : gmap string JsonValue)
    (rest : list (gmap string JsonValue)) :
  analyze_gop_structure (frame :: rest) ≠ [].
Proof.
  intros E. pose proof (analyze_gop_structure_concat (frame :: rest)) as Hc.
  rewrite E in Hc. by rewrite imap_cons in Hc.
Qed.

(** The reference part of a run never raises, and gives no entries when no
    stream was extracted. *)
Lemma run_reference_part (h264_data : option (list byte)) :
  ∃ ref_frames,
    reference_frames_of h264_data = Ok ref_frames ∧
    (h264_data = None ∨ h264_data = Some [] → ref_frames = []).
Proof.
  unfold reference_frames_of.
  destruct h264_data as [[|b data]|]; [by eexists | | by eexists].
  cbn zeta.
  destruct (print_reference_analysis_ok
              (analyze_reference_frames (default [] (parse_nal_units (b :: data)))))
    as [result ->].
  cbn [mbind exn_bind]. eexists. split; [done|]. by intros [|].
Qed.

(** A run of [analyze_video] on frames with string picture types, packets
    whose sizes convert, and sizes and a frame rate in the exact range.  It
    raises [ZeroDivisionError] exactly when the frame rate is 0 and there is
    a frame or a video packet; the error comes from one of the two printing
    functions, never from the summary.  It returns [None] exactly when there
    is no frame or no video packet (and the frame rate is not 0, or there is
    neither).  Otherwise it returns a summary, which counts the I frames of
    the input and has a reference ratio of 0 when no stream was extracted. *)
Theorem analyze_video_run_outcome (int_of_str : string → exn Z)
    (frame_list packets : list (gmap string JsonValue))
    (h264_data : option (list byte)) (framerate : Z)
    (frame_sizes : list Z) (total_size : Z) :
  Forall str_pict_type frame_list → exact_int framerate →
  analyze_bitrate int_of_str packets = Ok (frame_sizes, total_size) →
  exact_sizes frame_sizes →
  match analyze_video_run int_of_str (Some frame_list) (Some packets)
          h264_data framerate with
  | Ok None =>
      (frame_list = [] ∨ frame_sizes = []) ∧
      (framerate = 0%Z → frame_list = [] ∧ frame_sizes = [])
  | Ok (Some summary) =>
      frame_list ≠ [] ∧ frame_sizes ≠ [] ∧ framerate ≠ 0%Z ∧
      i_frame_count summary = len (filter (λ f, is_i_frame f = true) frame_list) ∧
      (h264_data = None ∨ h264_data = Some [] → ref_ratio summary = PyInt 0)
  | Raise e =>
      e = ZeroDivisionError ∧ framerate = 0%Z ∧
      (frame_list ≠ [] ∨ frame_sizes ≠ [])
  end.
Proof.
  intros _ _ Hsizes _. unfold analyze_video_run. rewrite Hsizes.
  cbn [mbind exn_bind fst].
  destruct (run_reference_part h264_data) as (ref_frames & Href & Hnone).
  destruct (decide (framerate = 0%Z)) as [-> | Hfr].
  - destruct frame_list as [|frame rest].
    + change (analyze_gop_structure []) with (@nil (list GopFrame)).
      change (print_gop_analysis [] 0) with (Ok (mkGopReport 0 None)).
      cbn [mbind exn_bind]. destruct frame_sizes as [|size sizes].
      * cbn [print_bitrate_analysis mbind exn_bind]. rewrite Href.
        cbn [mbind exn_bind analyze_video]. by split; [left|].
      * change (print_bitrate_analysis (size :: sizes) 0)
          with (@Raise (option BitrateReport) ZeroDivisionError).
        cbn [mbind exn_bind]. split_and!; [done | done | by right].
    + pose proof (analyze_gop_structure_cons frame rest) as Hgops.
      destruct (analyze_gop_structure (frame :: rest)) as [|gop gops]; [done|].
      rewrite print_gop_analysis_zero. cbn [mbind exn_bind].
      split_and!; [done | done | by left].
  - destruct frame_list as [|frame rest].
    + change (analyze_gop_structure []) with (@nil (list GopFrame)).
      change (print_gop_analysis [] framerate) with (Ok (mkGopReport 0 None)).
      cbn [mbind exn_bind].
      destruct (print_bitrate_analysis_ok frame_sizes framerate Hfr) as [r ->].
      cbn [mbind exn_bind]. rewrite Href. cbn [mbind exn_bind].
      unfold analyze_video. destruct frame_sizes; by split; [left|].
    + pose proof (analyze_gop_structure_cons frame rest) as Hgops.
      pose proof (analyze_gop_structure_concat (frame :: rest)) as Hcat.
      destruct (analyze_gop_structure (frame :: rest)) as [|gop gops] eqn:E; [done|].
      rewrite print_gop_analysis_stats by done. cbn [mbind exn_bind].
      destruct (print_bitrate_analysis_ok frame_sizes framerate Hfr) as [r ->].
      cbn [mbind exn_bind]. rewrite Href. cbn [mbind exn_bind].
      destruct frame_sizes as [|size sizes]; [by split; [right|]|].
      destruct (analyze_video_fields (size :: sizes) (gop :: gops) ref_frames
                  framerate) as (summary & m & Hrun & _ & _ & _ & Hcount);
        [done.. |].
      destruct (analyze_video_summary (size :: sizes) (gop :: gops) ref_frames
                  framerate) as (summary' & Hrun' & _ & Hratio); [done.. |].
      rewrite Hrun in Hrun'. injection Hrun' as <-. rewrite Hrun.
      split_and!; [done | done | done | |].
      * rewrite Hcount, Hcat.
        rewrite (count_if_imap _ is_i_frame) by done. apply count_if_length.
      * intros Hn. by rewrite Hratio, (Hnone Hn).
Qed.

Lemma analyze_video_run_outcome_sample :
  ∃ summary,
    analyze_video_run (λ _, Raise ValueError)
      (Some ((λ t, {[ "pict_type"%string := JStr t ]}) <$> ["I"; "P"; "P"; "I"; "P"]%string))
      (Some [ {[ "codec_type"%string := JStr "video"; "size"%string := JInt 1200 ]};
              {[ "codec_type"%string := JStr "audio"; "size"%string := JInt 100 ]};
              {[ "codec_type"%string := JStr "video"; "size"%string := JInt 300 ]} ])
      None 60 = Ok (Some summary) ∧
    i_frame_count summary = 2%Z ∧ ref_ratio summary = PyInt 0.
Proof.
  assert (Hstr : Forall str_pict_type
                   ((λ t, {[ "pict_type"%string := JStr t ]})
                      <$> ["I"; "P"; "P"; "I"; "P"]%string)).
  { repeat constructor; intros v Hv; vm_compute in Hv;
      injection Hv as <-; by eexists. }
  assert (Hexact : exact_sizes [1200; 300]%Z).
  { split_and!; [|by vm_compute..]. repeat constructor; by vm_compute. }
  pose proof (analyze_video_run_outcome (λ _, Raise ValueError) _
                [ {[ "codec_type"%string := JStr "video"; "size"%string := JInt 1200 ]};
                  {[ "codec_type"%string := JStr "audio"; "size"%string := JInt 100 ]};
                  {[ "codec_type"%string := JStr "video"; "size"%string := JInt 300 ]} ]
                None 60%Z [1200; 300]%Z 1500%Z Hstr) as H.
  destruct (analyze_video_run _ _ _ _ _) as [[summary|]|e] eqn:E.
  - exists summary. split; [reflexivity|].
    destruct H as (_ & _ & _ & Hi & Hr); [by vm_compute | by vm_compute | done |].
    split; [by rewrite Hi | apply Hr; by left].
  - by vm_compute in E.
  - by vm_compute in E.
Defined.

(** ** The empty list of frame sizes *)

(** C6, as the code has it: on the empty list of frame sizes no bitrate is
    reported at all.  [print_bitrate_analysis] returns before computing one,
    without failing, whatever the frame rate; the summary code at the end of
    [analyze_video] is skipped and gives [None] instead of a summary,
    whatever the frame rate; and a whole run of [analyze_video] on frames
    with string picture types and no video packet returns [None], except
    when there is a frame and the frame rate is 0: then [print_gop_analysis]
    raises [ZeroDivisionError] before the bitrate code is reached. *)
Theorem empty_sizes_no_report :
  (∀ framerate : Z, print_bitrate_analysis [] framerate = Ok None) ∧
  (∀ (framerate : Z) (gops : list (list GopFrame)) (ref_frames : list FrameInfo),
     analyze_video [] gops ref_frames framerate = Ok None) ∧
  (∀ (int_of_str : string → exn Z)
     (frame_list packets : list (gmap string JsonValue))
     (h264_data : option (list byte)) (framerate total_size : Z),
     Forall str_pict_type frame_list →
     analyze_bitrate int_of_str packets = Ok ([], total_size) →
     analyze_video_run int_of_str (Some frame_list) (Some packets)
       h264_data framerate
     = match frame_list with
       | [] => Ok None
       | _ :: _ => if (framerate =? 0)%Z then Raise ZeroDivisionError else Ok None
       end).
Proof.
  split_and!; [done | done |].
  intros int_of_str frame_list packets h264_data framerate total_size _ Hsizes.
  unfold analyze_video_run. rewrite Hsizes. cbn [mbind exn_bind fst].
  destruct (run_reference_part h264_data) as (ref_frames & Href & _).
  destruct frame_list as [|frame rest].
  - change (analyze_gop_structure []) with (@nil (list GopFrame)).
    change (print_gop_analysis [] framerate) with (Ok (mkGopReport 0 None)).
    cbn [mbind exn_bind print_bitrate_analysis]. rewrite Href. done.
  - pose proof (analyze_gop_structure_cons frame rest) as Hgops.
    destruct (analyze_gop_structure (frame :: rest)) as [|gop gops]; [done|].
    destruct (Z.eqb_spec framerate 0) as [-> | Hfr].
    + by rewrite print_gop_analysis_zero.
    + rewrite print_gop_analysis_stats by done.
      cbn [mbind exn_bind print_bitrate_analysis]. rewrite Href. done.
Qed.

Lemma empty_sizes_no_report_audio_only :
  analyze_video_run (λ _, Raise ValueError)
    (Some ((λ t, {[ "pict_type"%string := JStr t ]}) <$> ["I"; "P"]%string))
    (Some [ {[ "codec_type"%string := JStr "audio"; "size"%string := JInt 100 ]} ])
    None 60 = Ok None.
Proof.
  refine (proj2 (proj2 empty_sizes_no_report) (λ _, Raise ValueError)
            ((λ t, {[ "pict_type"%string := JStr t ]}) <$> ["I"; "P"]%string)
            [ {[ "codec_type"%string := JStr "audio"; "size"%string := JInt 100 ]} ]
            None 60%Z 0%Z _ _).
  - repeat constructor; intros v Hv; vm_compute in Hv;
      injection Hv as <-; by eexists.
  - by vm_compute.
Defined.

(** C6, as the spec states it, fails: on the empty list no summary exists
    whose bitrate could be 0; and a run with frames, no video packet and a
    frame rate of 0 does fail. *)
Lemma empty_sizes_no_zero_bitrate :
  print_bitrate_analysis [] 60 = Ok None ∧
  ¬ (∃ summary, analyze_video [] [] [] 60 = Ok (Some summary) ∧
                (avg_bitrate summary = PyInt 0 ∨ avg_bitrate summary = PyFloat 0)) ∧
  analyze_bitrate (λ _, Raise ValueError)
    [ {[ "codec_type"%string := JStr "audio"; "size"%string := JInt 100 ]} ]
  = Ok ([], 0%Z) ∧
  analyze_video_run (λ _, Raise ValueError)
    (Some [ {[ "pict_type"%string := JStr "I" ]} ])
    (Some [ {[ "codec_type"%string := JStr "audio"; "size"%string := JInt 100 ]} ])
    None 0 = Raise ZeroDivisionError.
Proof.
  split_and!; [done | by intros (summary & [=] & _) | by vm_compute | by vm_compute].
Qed.

(** ** Detailed statistics *)

(** Zero divided by a positive integer below 2^53 is not above zero. *)
Lemma zero_quotient_not_positive (n : Z) :
  (0 < n)%Z → exact_int n →
  PrimFloat.ltb 0 (PrimFloat.div (float_of_int 0) (float_of_int n)) = false.
Proof.
  intros Hn En. unfold exact_int in En. rewrite (float_of_int_pos n Hn).
  destruct (of_uint63_pos_finite n) as (m & e & E); [lia|].
  rewrite FloatAxioms.ltb_spec, FloatAxioms.div_spec, E. reflexivity.
Qed.

(** Which entries [analyze_quantization_and_motion] stores, for sizes in
    the exact range: the function never raises; the I-frame entries are
    there exactly when there is an I-frame size, the P-frame entries exactly
    when there is a P-frame size, and [size_cv] exactly when there is either;
    a stored count is the number of sizes and a stored average their mean;
    and when the sizes add up to 0, [size_cv] is the integer 0 and nothing
    is divided by the zero average. *)
Theorem detailed_statistics_entries (float_pow : float → float → float)
    (float_sum : list float → float) (i_sizes p_sizes : list Z) :
  exact_sizes i_sizes → exact_sizes p_sizes → exact_sizes (i_sizes ++ p_sizes) →
  ∃ stats,
    analyze_quantization_and_motion float_pow float_sum i_sizes p_sizes = Ok stats ∧
    (i_frame stats = None ↔ i_sizes = []) ∧
    (p_frame stats = None ↔ p_sizes = []) ∧
    (size_cv stats = None ↔ i_sizes = [] ∧ p_sizes = []) ∧
    (∀ entry, i_frame stats = Some entry →
       frame_count entry = len i_sizes ∧ frame_avg entry = mean i_sizes) ∧
    (∀ entry, p_frame stats = Some entry →
       frame_count entry = len p_sizes ∧ frame_avg entry = mean p_sizes) ∧
    (i_sizes ++ p_sizes ≠ [] → py_sum (i_sizes ++ p_sizes) = 0%Z →
     size_cv stats = Some (PyInt 0)).
Proof.
  intros _ _ (_ & _ & Elen).
  assert (Hentry : ∀ sizes,
            ∃ entry, frame_stats float_pow float_sum sizes = Ok entry ∧
                     (entry = None ↔ sizes = []) ∧
                     ∀ e, entry = Some e →
                          frame_count e = len sizes ∧ frame_avg e = mean sizes).
  { intros sizes. destruct sizes as [|x sizes].
    - exists None. by split_and!.
    - rewrite frame_stats_population by done. eexists. split; [done|].
      split; [by split|]. by intros e [= <-]. }
  unfold analyze_quantization_and_motion.
  destruct (Hentry i_sizes) as (i_entry & -> & Hi & Hi').
  destruct (Hentry p_sizes) as (p_entry & -> & Hp & Hp').
  cbn [mbind exn_bind].
  destruct (i_sizes ++ p_sizes) as [|x all_sizes] eqn:E.
  { apply app_eq_nil in E as [-> ->]. eexists. split; [done|].
    cbn [i_frame p_frame size_cv]. split_and!; done. }
  assert (Hsome : ¬ (i_sizes = [] ∧ p_sizes = [])) by (by intros [-> ->]).
  unfold std_dev, int_truediv, float_div_int. rewrite !len_cons_nonzero.
  cbn [mbind exn_bind].
  destruct (PrimFloat.ltb 0 _) eqn:Epos.
  - unfold float_truediv. rewrite (float_pos_nonzero _ Epos).
    cbn [fmap exn_fmap mbind exn_bind]. eexists. split; [done|].
    cbn [i_frame p_frame size_cv]. split_and!; [done | done | by split | done | done |].
    intros _ Hzero. rewrite Hzero in Epos.
    rewrite zero_quotient_not_positive in Epos; [done | | done].
    unfold len. cbn [length]. lia.
  - cbn [mbind exn_bind]. eexists. split; [done|].
    cbn [i_frame p_frame size_cv]. split_and!; [done | done | by split | done | done | done].
Qed.

Lemma detailed_statistics_entries_sample :
  ∃ stats,
    analyze_quantization_and_motion ieee_pow ieee_sum [0; 0]%Z [] = Ok stats ∧
    p_frame stats = None ∧ size_cv stats = Some (PyInt 0).
Proof.
  destruct (detailed_statistics_entries ieee_pow ieee_sum [0; 0]%Z [])
    as (stats & Hrun & _ & Hp & _ & _ & _ & Hcv).
  - split_and!; [by repeat constructor | by vm_compute | by vm_compute].
  - split_and!; [by repeat constructor | by vm_compute | by vm_compute].
  - split_and!; [by repeat constructor | by vm_compute | by vm_compute].
  - exists stats. split_and!; [exact Hrun | by apply Hp | by apply Hcv].
Defined.
